(** * Argos: the repository tree view, the configuration tree view and
      the miscellaneous string routines

    A shallow embedding of
      - [libargos/utils/misc.py]              (module [Misc]),
      - [libargos/widgets/configtreeview.py]  (module [ConfigTreeView]),
      - [libargos/widgets/repotreeview.py]    (module [RepoTreeView]),
    followed by the properties proved about each of them. *)

From Stdlib Require Import ZArith Ascii String.
From stdpp Require Import base tactics option list strings gmap.

Set Warnings "-register-all".
Local Open Scope Z_scope.

(** * Python control flow: exceptions and state

    A method call either returns a value or raises; in both cases it may
    have changed the objects it touched.  [Prog S A] is a computation over
    a state [S] that ends in an [Outcome]. *)

Inductive Exn : Type :=
  | AssertionError (msg : string)
  | InvalidInputError (msg : string)
  | LookupError (msg : string).

Inductive Outcome (A : Type) : Type :=
  | Return (a : A)
  | Raise (e : Exn).
Arguments Return {A} a.
Arguments Raise {A} e.

Definition Prog (S A : Type) : Type := S -> Outcome A * S.

#[global] Instance Prog_ret {S} : MRet (Prog S) :=
  fun A a s => (Return a, s).

#[global] Instance Prog_bind {S} : MBind (Prog S) :=
  fun A B f m s =>
    match m s with
    | (Return a, s') => f a s'
    | (Raise e, s') => (Raise e, s')
    end.

(** [raise e]: the statement [raise e]. *)
Definition raise {S A} (e : Exn) : Prog S A := fun s => (Raise e, s).

(** [act f]: a call that returns nothing and changes the state by [f]. *)
Definition act {S} (f : S -> S) : Prog S unit := fun s => (Return tt, f s).

(** [py_assert c msg]: the statement [assert c, msg]. *)
Definition py_assert {S} (c : bool) (msg : string) : Prog S unit :=
  if c then mret tt else raise (AssertionError msg).

(** [try_except_else body handler orelse]:
<<
      try:     x = body
      except <the exceptions handler accepts> as ex:  handler ex
      else:    orelse x
>>
    An exception the handler does not accept propagates, and so does one
    raised by the [else] suite. *)
Definition try_except_else {S A B} (body : Prog S A)
    (handler : Exn -> option (Prog S B)) (orelse : A -> Prog S B) : Prog S B :=
  fun s =>
    match body s with
    | (Return a, s') => orelse a s'
    | (Raise e, s') =>
        match handler e with
        | Some h => h s'
        | None => (Raise e, s')
        end
    end.

(** * [libargos/utils/misc.py] *)

Module Misc.

(** A Python [str] is modelled as a [string] of one-byte characters, the
    characters below U+0100. *)

Definition in_range (lo hi : nat) (c : ascii) : bool :=
  (lo <=? nat_of_ascii c)%nat && (nat_of_ascii c <=? hi)%nat.

Definition is_upper (c : ascii) : bool := in_range 65 90 c.
Definition is_lower (c : ascii) : bool := in_range 97 122 c.
Definition is_digit (c : ascii) : bool := in_range 48 57 c.
Definition is_underscore (c : ascii) : bool := Ascii.eqb c "_".
Definition is_hyphen (c : ascii) : bool := Ascii.eqb c "-".

(** The class [\s] of the [re] module on a [str]: the characters
    [str.isspace] accepts.  Below U+0100 these are [[ \t\n\r\f\v]] (9 to
    13 and 32), the separators [\x1c] to [\x1f] (28 to 31), the next-line
    control [\x85] (133) and the no-break space [\xa0] (160). *)
Definition is_space (c : ascii) : bool :=
  in_range 9 13 c || Ascii.eqb c " " || in_range 28 31 c
  || (nat_of_ascii c =? 133)%nat || (nat_of_ascii c =? 160)%nat.

(** The class [[A-Za-z0-9_]]. *)
Definition is_word (c : ascii) : bool :=
  is_upper c || is_lower c || is_digit c || is_underscore c.

(** [str.lower] on one character: [A-Z] is moved to [a-z]. *)
Definition lower_char (c : ascii) : ascii :=
  if is_upper c then ascii_of_nat (nat_of_ascii c + 32) else c.

(** [s.lower()] *)
Fixpoint lower (s : string) : string :=
  match s with
  | EmptyString => EmptyString
  | String c r => String (lower_char c) (lower r)
  end.

(** [re.sub(p, repl, s)] for a pattern [p] that is one character class:
    every character of the class is replaced by [repl]. *)
Fixpoint re_sub_class (cls : ascii -> bool) (repl : string) (s : string) : string :=
  match s with
  | EmptyString => EmptyString
  | String c r =>
      if cls c then String.append repl (re_sub_class cls repl r)
      else String c (re_sub_class cls repl r)
  end.

(** [re.sub(p+, repl, s)] for a character class [p]: matches are leftmost
    and greedy, so every maximal run of the class is replaced by one
    [repl].  [in_run] tells that the previous character was of the class
    (the current match is still being extended). *)
Fixpoint re_sub_runs (cls : ascii -> bool) (repl : string) (in_run : bool)
    (s : string) : string :=
  match s with
  | EmptyString => EmptyString
  | String c r =>
      if cls c then
        if in_run then re_sub_runs cls repl true r
        else String.append repl (re_sub_runs cls repl true r)
      else String c (re_sub_runs cls repl false r)
  end.

(** [prepend_point_to_extension(extension)] *)
Definition prepend_point_to_extension (extension : string) : string :=
  if String.prefix "." extension then extension
  else String.append "." extension.

(** [string_to_identifier(s)] *)
Definition string_to_identifier (s : string) : string :=
  let s := lower s in
  let s := re_sub_runs is_space "_" false s in
  let s := re_sub_class is_hyphen "_" s in
  let s := re_sub_class (fun c => negb (is_word c)) "" s in
  s.

(** The characters an identifier is made of: lowercase letters, digits and
    the underscore. *)
Definition is_identifier_char (c : ascii) : bool :=
  is_lower c || is_digit c || is_underscore c.

Fixpoint all_chars (p : ascii -> bool) (s : string) : bool :=
  match s with
  | EmptyString => true
  | String c r => p c && all_chars p r
  end.

(** The result of [string_to_identifier] told in one pass over the input,
    in the words of its description: a run of whitespace becomes one
    underscore, a hyphen becomes an underscore, letters are lowered, digits
    and underscores are kept and every other character is removed. *)
Fixpoint identifier_of (in_run : bool) (s : string) : string :=
  match s with
  | EmptyString => EmptyString
  | String c r =>
      if is_space c then
        if in_run then identifier_of true r
        else String "_" (identifier_of true r)
      else if is_hyphen c then String "_" (identifier_of false r)
      else if is_word c then String (lower_char c) (identifier_of false r)
      else identifier_of false r
  end.

(** A separator control is whitespace: it becomes an underscore, also at
    the head of a string, and merges with the blanks around it. *)
Example string_to_identifier_separator :
  string_to_identifier (String "a" (String (ascii_of_nat 28) "b"))
  = "a_b"%string
  /\ string_to_identifier (String "a" (String " " (String (ascii_of_nat 28) "b")))
     = "a_b"%string
  /\ string_to_identifier (String (ascii_of_nat 160) "b") = "_b"%string
  /\ string_to_identifier (String (ascii_of_nat 133) "b") = "_b"%string.
Proof. repeat split. Qed.

Example string_to_identifier_demo :
  string_to_identifier "Pea sdf-43q45,.!@#%&@&@@24n  pijn  Kenter, hallo$"
  = "pea_sdf_43q4524n_pijn_kenter_hallo"%string.
Proof. reflexivity. Qed.

End Misc.

(** * The toolkit's values the views handle *)

Module Qt.

(** Modelled from the spec: the toolkit's [QModelIndex], the "opaque locator
    of a node within a tree model (row, column, parent chain)", "always
    resolvable to exactly one node or the designated invalid/root
    sentinel".  [ancestors] are the rows of the parent, of the parent's
    parent, and so on up to a top-level node. *)
Inductive QModelIndex : Type :=
  | InvalidIndex
  | ModelIndex (ancestors : list nat) (row column : nat).

Definition isValid (i : QModelIndex) : bool :=
  match i with InvalidIndex => false | ModelIndex _ _ _ => true end.

Definition row (i : QModelIndex) : Z :=
  match i with InvalidIndex => -1 | ModelIndex _ r _ => Z.of_nat r end.

Definition column (i : QModelIndex) : Z :=
  match i with InvalidIndex => -1 | ModelIndex _ _ c => Z.of_nat c end.

(** Modelled from the spec: [index.parent()], the next index of the parent
    chain; the parent of a top-level index is the invalid index, and a
    parent is given in column 0. *)
Definition parent (i : QModelIndex) : QModelIndex :=
  match i with
  | ModelIndex (r :: anc) _ _ => ModelIndex anc r 0
  | _ => InvalidIndex
  end.

(** Modelled from the spec: [index.sibling(row, column)], the index with
    the same parent chain at the given row and column ("identity of a tree
    node is row/parent-based, not column-based"); an invalid index has no
    sibling. *)
Definition sibling (i : QModelIndex) (r c : Z) : QModelIndex :=
  match i with
  | InvalidIndex => InvalidIndex
  | ModelIndex anc _ _ =>
      if (0 <=? r) && (0 <=? c) then ModelIndex anc (Z.to_nat r) (Z.to_nat c)
      else InvalidIndex
  end.

(** [Qt.ItemDataRole] *)
Definition ItemDataRole : Type := Z.
Definition DisplayRole : ItemDataRole := 0.
Definition EditRole : ItemDataRole := 2.

(** [QAbstractItemDelegate.EndEditHint] *)
Inductive EndEditHint : Type :=
  | NoHint | EditNextItem | EditPreviousItem | SubmitModelCache | RevertModelCache.

(** Toolkit objects that are only handed on: a painter, a parent widget and
    the style option of a cell are known by their identity. *)
Definition QPainter : Type := nat.
Definition QWidget : Type := nat.
Definition QStyleOptionViewItem : Type := nat.

(** [QItemSelectionModel.SelectionFlags], or-ed bits. *)
Definition SelectionFlags : Type := Z.
Definition NoUpdate : SelectionFlags := 0.
Definition Clear : SelectionFlags := 1.
Definition Select : SelectionFlags := 2.
Definition Deselect : SelectionFlags := 4.
Definition Toggle : SelectionFlags := 8.
Definition Current : SelectionFlags := 16.
Definition Rows : SelectionFlags := 32.
Definition Columns : SelectionFlags := 64.
Definition ClearAndSelect : SelectionFlags := Z.lor Clear Select.

Definition has_flag (flags flag : SelectionFlags) : bool :=
  negb (Z.land flags flag =? 0).

End Qt.

(** * [libargos/widgets/configtreeview.py] *)

Module ConfigTreeView.
Import Qt.

(** ** The collaborators

    The configuration tree model and the configuration tree items (CTIs)
    live in other modules of the application.  The delegate and the view
    are written against their interface; so is the embedding. *)

(** [ConfigTreeModel]: a state [M] of the model (the tree with the
    values of its nodes) and the calls the delegate makes on it. *)
Class ConfigTreeModel (M Cti Value : Type) : Type := {
  COL_VALUE : Z;
  getItem : M -> QModelIndex -> Cti;
  data : M -> QModelIndex -> ItemDataRole -> Value;
  setData : M -> QModelIndex -> Value -> ItemDataRole -> M;
}.

(** The CTI methods the delegate calls.  [createEditor] may fail to
    produce an editor; [getEditorValue] raises [InvalidInputError] on input
    it cannot accept. *)
Class ConfigTreeItem (Cti Value Editor : Type) : Type := {
  paintDisplayValue : Cti -> QPainter -> QStyleOptionViewItem -> Value -> bool;
  createEditor : Cti -> QWidget -> QStyleOptionViewItem -> Outcome Editor;
  getEditorValue : Cti -> Editor -> Outcome Value;
  (** [isinstance(editor, CtiEditor)] *)
  isCtiEditor : Editor -> bool;
}.

Section Delegate.
Context {M Cti Value Editor : Type}.
Context `{!ConfigTreeModel M Cti Value} `{!ConfigTreeItem Cti Value Editor}.

(** The calls that leave the delegate and the view, in the order they are
    made. *)
Inductive Call : Type :=
  | LoggerDebug (msg : string)
  | LoggerWarn (ex : Exn)
  | ModelData (index : QModelIndex) (role : ItemDataRole)
  | ModelGetItem (index : QModelIndex)
  | ModelSetData (index : QModelIndex) (value : Value) (role : ItemDataRole)
  | CtiPaintDisplayValue (cti : Cti) (painter : QPainter)
      (opt : QStyleOptionViewItem) (value : Value)
  | CtiCreateEditor (cti : Cti) (parent : QWidget) (opt : QStyleOptionViewItem)
  | CtiGetEditorValue (cti : Cti) (editor : Editor)
  | EditorFinalize (editor : Editor)
  | BasePaint (painter : QPainter) (opt : QStyleOptionViewItem)
      (index : QModelIndex)
  | BaseCloseEditor (editor : Editor) (hint : EndEditHint).

(** What the delegate works on: the model and the calls made so far. *)
Record World : Type := mkWorld {
  model : M;
  calls : list Call;
}.

Definition record (c : Call) (w : World) : World :=
  mkWorld (model w) (calls w ++ [c]).

(** *** The calls, one by one *)

Definition logger_debug (msg : string) : Prog World unit :=
  fun w => (Return tt, record (LoggerDebug msg) w).

Definition logger_warn (ex : Exn) : Prog World unit :=
  fun w => (Return tt, record (LoggerWarn ex) w).

Definition model_data (index : QModelIndex) (role : ItemDataRole)
    : Prog World Value :=
  fun w => (Return (data (model w) index role), record (ModelData index role) w).

Definition model_getItem (index : QModelIndex) : Prog World Cti :=
  fun w => (Return (getItem (model w) index), record (ModelGetItem index) w).

Definition model_setData (index : QModelIndex) (value : Value)
    (role : ItemDataRole) : Prog World unit :=
  fun w =>
    (Return tt,
     mkWorld (setData (model w) index value role)
             (calls w ++ [ModelSetData index value role])).

Definition cti_paintDisplayValue (cti : Cti) (painter : QPainter)
    (opt : QStyleOptionViewItem) (value : Value) : Prog World bool :=
  fun w => (Return (paintDisplayValue cti painter opt value),
            record (CtiPaintDisplayValue cti painter opt value) w).

Definition cti_createEditor (cti : Cti) (parent : QWidget)
    (opt : QStyleOptionViewItem) : Prog World Editor :=
  fun w => (createEditor cti parent opt,
            record (CtiCreateEditor cti parent opt) w).

Definition cti_getEditorValue (cti : Cti) (editor : Editor) : Prog World Value :=
  fun w => (getEditorValue cti editor, record (CtiGetEditorValue cti editor) w).

Definition editor_finalize (editor : Editor) : Prog World unit :=
  fun w => (Return tt, record (EditorFinalize editor) w).

(** [super(ConfigItemDelegate, self).paint(painter, opt, index)] *)
Definition base_paint (painter : QPainter) (opt : QStyleOptionViewItem)
    (index : QModelIndex) : Prog World unit :=
  fun w => (Return tt, record (BasePaint painter opt index) w).

(** [super(ConfigTreeView, self).closeEditor(editor, hint)] *)
Definition base_closeEditor (editor : Editor) (hint : EndEditHint)
    : Prog World unit :=
  fun w => (Return tt, record (BaseCloseEditor editor hint) w).

(** ** class [ConfigItemDelegate] *)

(** [ConfigItemDelegate.paint(self, painter, opt, index)] *)
Definition paint (painter : QPainter) (opt : QStyleOptionViewItem)
    (index : QModelIndex) : Prog World unit :=
  painted ←
    (if column index =? COL_VALUE then
       value ← model_data index EditRole;
       cti ← model_getItem index;
       cti_paintDisplayValue cti painter opt value
     else mret false);
  if negb painted then base_paint painter opt index else mret tt.

(** [ConfigItemDelegate.createEditor(self, parent, opt, index)] *)
Definition delegate_createEditor (parent : QWidget)
    (opt : QStyleOptionViewItem) (index : QModelIndex) : Prog World Editor :=
  logger_debug "ConfigItemDelegate.createEditor, parent: {!r}";;
  py_assert (isValid index) "sanity check failed: invalid index";;
  cti ← model_getItem index;
  editor ← cti_createEditor cti parent opt;
  mret editor.

(** [ConfigItemDelegate.finalizeEditor(self, editor)] *)
Definition finalizeEditor (editor : Editor) : Prog World unit :=
  if isCtiEditor editor then editor_finalize editor
  else logger_debug "Editor not a CtiEditor. No finalized() called.".

(** [ConfigItemDelegate.setModelData(self, editor, model, index)]; the
    [model] argument is the model of the world. *)
Definition setModelData (editor : Editor) (index : QModelIndex)
    : Prog World unit :=
  logger_debug "ConfigItemDelegate.setModelData: editor {}";;
  cti ← model_getItem index;
  try_except_else
    (cti_getEditorValue cti editor)
    (fun ex =>
       match ex with
       | InvalidInputError _ => Some (logger_warn ex)
       | _ => None
       end)
    (fun data => model_setData index data EditRole).

(** ** class [ConfigTreeView] *)

(** [ConfigTreeView.closeEditor(self, editor, hint)]; [self.itemDelegate()]
    is the [ConfigItemDelegate] the constructor has set. *)
Definition closeEditor (editor : Editor) (hint : EndEditHint)
    : Prog World unit :=
  finalizeEditor editor;;
  base_closeEditor editor hint.

(** ** Reading the calls *)

(** The [setData] calls among a list of calls, in order. *)
Definition setData_calls (cs : list Call)
    : list (QModelIndex * Value * ItemDataRole) :=
  omap (fun c =>
          match c with
          | ModelSetData i v r => Some (i, v, r)
          | _ => None
          end) cs.

(** The editors [finalize] was called on. *)
Definition finalize_calls (cs : list Call) : list Editor :=
  omap (fun c => match c with EditorFinalize e => Some e | _ => None end) cs.

(** The calls of the base class's [paint]. *)
Definition base_paint_calls (cs : list Call)
    : list (QPainter * QStyleOptionViewItem * QModelIndex) :=
  omap (fun c =>
          match c with
          | BasePaint p o i => Some (p, o, i)
          | _ => None
          end) cs.

(** The nodes retrieved from the model. *)
Definition getItem_calls (cs : list Call) : list QModelIndex :=
  omap (fun c => match c with ModelGetItem i => Some i | _ => None end) cs.

End Delegate.

Arguments Call : clear implicits.
Arguments World : clear implicits.

End ConfigTreeView.

(** * [libargos/widgets/repotreeview.py] *)

Module RepoTreeView.
Import Qt.

(** ** The repository tree

    The repository tree model and the repository tree items (RTIs) live in
    other modules of the application. *)

(** The identity of an item, which is also the identity of the resource
    (the file) the item holds. *)
Definition Oid : Type := nat.

(** The concrete class of an item, known by its name. *)
Definition RtiClass : Type := string.

(** Modelled from the spec: [RepoTreeItem], "a node with a parent reference
    (nullable [...]), an ordered sequence of children, and item-specific
    state": its identity, its class, the name of its file, the reference to
    its parent ([None] while the item is in no tree) and its children.
    Whether its resource is open is kept in the world. *)
Inductive RepoTreeItem : Type := mkRti {
  oid : Oid;
  rtiClass : RtiClass;
  fileName : string;
  parentItem : option Oid;
  childItems : list RepoTreeItem;
}.

Definition with_children (t : RepoTreeItem) (cs : list RepoTreeItem)
    : RepoTreeItem :=
  mkRti (oid t) (rtiClass t) (fileName t) (parentItem t) cs.

Definition with_parent (t : RepoTreeItem) (p : option Oid) : RepoTreeItem :=
  mkRti (oid t) (rtiClass t) (fileName t) p (childItems t).

(** The identities of an item and of everything below it. *)
Fixpoint subtreeOids (t : RepoTreeItem) : list Oid :=
  match t with
  | mkRti o _ _ _ cs => o :: flat_map subtreeOids cs
  end.

(** The identities of the descendants of an item. *)
Definition descendantOids (t : RepoTreeItem) : list Oid :=
  flat_map subtreeOids (childItems t).

(** The path of an index from the root: the rows of its ancestors, the
    top-level one first, then its own row.  The invalid index has the empty
    path, the path of the root. *)
Definition itemPath (i : QModelIndex) : list nat :=
  match i with
  | InvalidIndex => []
  | ModelIndex anc r _ => rev (r :: anc)
  end.

(** The node at a path below [t]. *)
Fixpoint getAt (p : list nat) (t : RepoTreeItem) : option RepoTreeItem :=
  match p with
  | [] => Some t
  | k :: q =>
      match childItems t !! k with
      | Some c => getAt q c
      | None => None
      end
  end.

(** The tree [t] with the node at path [p] replaced by [f] of it; [None]
    when there is no node at [p] or [f] refuses. *)
Fixpoint updateAt (p : list nat) (f : RepoTreeItem -> option RepoTreeItem)
    (t : RepoTreeItem) : option RepoTreeItem :=
  match p with
  | [] => f t
  | k :: q =>
      match childItems t !! k with
      | Some c =>
          match updateAt q f c with
          | Some c' => Some (with_children t (<[k := c']> (childItems t)))
          | None => None
          end
      | None => None
      end
  end.

(** The tree with the node at [p] replaced by [y] (the tree itself when
    there is no node at [p]). *)
Fixpoint putAt (p : list nat) (y : RepoTreeItem) (t : RepoTreeItem)
    : RepoTreeItem :=
  match p with
  | [] => y
  | k :: q =>
      match childItems t !! k with
      | Some c => with_children t (<[k := putAt q y c]> (childItems t))
      | None => t
      end
  end.

(** A Python reference to an item that is in the tree: the place of the
    item, as its path from the root.  The view never keeps such a
    reference across a call that moves the item. *)
Definition ItemRef : Type := list nat.

(** ** The selection model of the view *)

(** Modelled from the spec: what the toolkit's selection model holds, the
    "nodes visually marked selected": whole rows (selection with the [Rows]
    flag) or single cells. *)
Inductive SelectionRange : Type :=
  | RowRange (ancestors : list nat) (row : nat)
  | CellRange (ancestors : list nat) (row column : nat).

#[global] Instance SelectionRange_eq_dec : EqDecision SelectionRange.
Proof. solve_decision. Defined.

(** Whether a range covers an index. *)
Definition covers (i : QModelIndex) (r : SelectionRange) : bool :=
  match i, r with
  | ModelIndex anc row _, RowRange anc' row' =>
      bool_decide (anc = anc') && bool_decide (row = row')
  | ModelIndex anc row col, CellRange anc' row' col' =>
      bool_decide (anc = anc') && bool_decide (row = row')
      && bool_decide (col = col')
  | InvalidIndex, _ => false
  end.

(** [selectionModel.isSelected(index)] *)
Definition isSelected (sel : list SelectionRange) (i : QModelIndex) : bool :=
  existsb (covers i) sel.

(** The range a selection command is about: nothing for the invalid
    index. *)
Definition commandRange (i : QModelIndex) (flags : SelectionFlags)
    : list SelectionRange :=
  match i with
  | InvalidIndex => []
  | ModelIndex anc r c =>
      [if has_flag flags Rows then RowRange anc r else CellRange anc r c]
  end.

(** Modelled from the spec: the toolkit's [QItemSelectionModel.select(index,
    flags)], as far as the flags [Clear], [Select], [Deselect] and [Rows] go
    (the view uses [ClearAndSelect | Rows]: "clears and replaces the
    selection with exactly that row"). *)
Definition select (i : QModelIndex) (flags : SelectionFlags)
    (sel : list SelectionRange) : list SelectionRange :=
  let target := commandRange i flags in
  let sel := if has_flag flags Clear then [] else sel in
  if has_flag flags Select then sel ++ target
  else if has_flag flags Deselect then
    filter (fun r => r ∉ target) sel
  else sel.

(** ** The world of the view *)

(** The calls that leave the view, in the order they are made. *)
Inductive Call : Type :=
  | LoggerDebug (msg : string)
  | ModelInsertItem (item : Oid) (position : option nat)
      (parentIndex : QModelIndex)
  | ModelDeleteItemByIndex (index : QModelIndex)
  | ModelRemoveAllChildrenAtIndex (index : QModelIndex)
  | ItemOpen (item : Oid)
  | ItemClose (item : Oid)
  | RtiCreateFromFileName (cls : RtiClass) (name : string)
  | ViewSetExpanded (index : QModelIndex) (expanded : bool)
  | ViewExpand (index : QModelIndex)
  | ViewCollapse (index : QModelIndex)
  | SelectionSetCurrentIndex (index : QModelIndex) (flags : SelectionFlags).

Record World : Type := mkWorld {
  (** the repository tree model: its invisible root, whose children are the
      top-level items *)
  rootItem : RepoTreeItem;
  (** the resources (files) that are open, by the identity of their item *)
  openResources : gset Oid;
  (** the identity the next constructed item gets *)
  nextOid : Oid;
  (** the selection model of the view *)
  currentIndex : QModelIndex;
  selection : list SelectionRange;
  (** the display state of the view: the items shown expanded *)
  expandedItems : gset Oid;
  calls : list Call;
}.

Definition record (c : Call) (w : World) : World :=
  mkWorld (rootItem w) (openResources w) (nextOid w) (currentIndex w)
          (selection w) (expandedItems w) (calls w ++ [c]).

Definition with_tree (root : RepoTreeItem) (res : gset Oid) (w : World)
    : World :=
  mkWorld root res (nextOid w) (currentIndex w) (selection w)
          (expandedItems w) (calls w).

Definition with_openResources (res : gset Oid) (w : World) : World :=
  with_tree (rootItem w) res w.

Definition with_nextOid (n : Oid) (w : World) : World :=
  mkWorld (rootItem w) (openResources w) n (currentIndex w) (selection w)
          (expandedItems w) (calls w).

Definition with_selection (cur : QModelIndex) (sel : list SelectionRange)
    (w : World) : World :=
  mkWorld (rootItem w) (openResources w) (nextOid w) cur sel
          (expandedItems w) (calls w).

Definition with_currentIndex (cur : QModelIndex) (w : World) : World :=
  with_selection cur (selection w) w.

Definition with_expandedItems (e : gset Oid) (w : World) : World :=
  mkWorld (rootItem w) (openResources w) (nextOid w) (currentIndex w)
          (selection w) e (calls w).

Definition logger_debug (msg : string) : Prog World unit :=
  fun w => (Return tt, record (LoggerDebug msg) w).

(** ** The model's operations *)

(** Modelled from the spec: [RepoTreeModel.getItem(index) -> TreeItem]; an
    index resolves "to exactly one node or the designated invalid/root
    sentinel".  An index that names no node of the tree is an error. *)
Definition model_getItem (index : QModelIndex) : Prog World ItemRef :=
  fun w =>
    match getAt (itemPath index) (rootItem w) with
    | Some _ => (Return (itemPath index), w)
    | None => (Raise (LookupError "getItem: no item at this index"), w)
    end.

(** The index of the child at row [r] of the node at [parentIndex]. *)
Definition childIndex (parentIndex : QModelIndex) (r : nat) : QModelIndex :=
  match parentIndex with
  | InvalidIndex => ModelIndex [] r 0
  | ModelIndex anc pr _ => ModelIndex (pr :: anc) r 0
  end.

(** Modelled from the spec: the insertion of [insertItem] at one node: the
    item becomes the child at [position], and its parent reference is
    set. *)
Definition insertChild (position : nat) (item : RepoTreeItem)
    (parentNode : RepoTreeItem) : option RepoTreeItem :=
  if decide (position ≤ length (childItems parentNode))%nat then
    Some (with_children parentNode
            (take position (childItems parentNode)
             ++ with_parent item (Some (oid parentNode))
             :: drop position (childItems parentNode)))
  else None.

(** Modelled from the spec: [RepoTreeModel.insertItem(item, position,
    parentIndex) -> index] "inserts it into the model at [position] (append
    if unspecified) under [parentIndex] (root if unspecified) [...]  Returns
    the resulting index."  A position past the end, or a parent index that
    names no node, is an error. *)
Definition model_insertItem (item : RepoTreeItem) (position : option nat)
    (parentIndex : QModelIndex) : Prog World QModelIndex :=
  fun w =>
    let w := record (ModelInsertItem (oid item) position parentIndex) w in
    match getAt (itemPath parentIndex) (rootItem w) with
    | None => (Raise (LookupError "insertItem: no parent at this index"), w)
    | Some parentNode =>
        let pos := default (length (childItems parentNode)) position in
        match updateAt (itemPath parentIndex) (insertChild pos item)
                (rootItem w) with
        | Some root' =>
            (Return (childIndex parentIndex pos),
             with_tree root' (openResources w) w)
        | None => (Raise (LookupError "insertItem: position out of range"), w)
        end
    end.

(** Modelled from the spec: the removal of [deleteItemByIndex] at one node:
    the child at row [r] leaves the sequence of children. *)
Definition removeChild (r : nat) (parentNode : RepoTreeItem)
    : option RepoTreeItem :=
  Some (with_children parentNode (delete r (childItems parentNode))).

(** The resources of the given items are released. *)
Definition release (items : list Oid) (res : gset Oid) : gset Oid :=
  res ∖ list_to_set items.

(** Modelled from the spec: [RepoTreeModel.deleteItemByIndex(index)]
    "deletes that subtree via the model, which is responsible for closing
    all resources transitively before removal".  The invalid index, or an
    index that names no node, is an error. *)
Definition model_deleteItemByIndex (index : QModelIndex) : Prog World unit :=
  fun w =>
    let w := record (ModelDeleteItemByIndex index) w in
    match index with
    | InvalidIndex =>
        (Raise (LookupError "deleteItemByIndex: invalid index"), w)
    | ModelIndex _ r _ =>
        match getAt (itemPath index) (rootItem w),
              updateAt (itemPath (parent index)) (removeChild r)
                (rootItem w) with
        | Some item, Some root' =>
            (Return tt,
             with_tree root'
               (release (subtreeOids item) (openResources w)) w)
        | _, _ =>
            (Raise (LookupError "deleteItemByIndex: no item at this index"), w)
        end
    end.

(** Modelled from the spec: [RepoTreeModel.removeAllChildrenAtIndex(index)]
    "removes all descendant nodes from the model [...] (cascading their own
    close/resource-release)". *)
Definition model_removeAllChildrenAtIndex (index : QModelIndex)
    : Prog World unit :=
  fun w =>
    let w := record (ModelRemoveAllChildrenAtIndex index) w in
    match getAt (itemPath index) (rootItem w),
          updateAt (itemPath index) (fun t => Some (with_children t []))
            (rootItem w) with
    | Some item, Some root' =>
        (Return tt,
         with_tree root' (release (descendantOids item) (openResources w)) w)
    | _, _ =>
        (Raise (LookupError "removeAllChildrenAtIndex: no item at this index"),
         w)
    end.

(** The walk from an index up to its top-level ancestor: the index itself
    when it has no parent, the walk from its parent otherwise. *)
Fixpoint topLevelFrom (anc : list nat) (r c : nat) : QModelIndex :=
  match anc with
  | [] => ModelIndex [] r c
  | p :: anc' => topLevelFrom anc' p 0
  end.

(** Modelled from the spec: [RepoTreeModel.findTopLevelItemIndex(index)]
    "walks up from the current index to the top-level ancestor (the file
    node)". *)
Definition findTopLevelItemIndex (index : QModelIndex) : QModelIndex :=
  match index with
  | InvalidIndex => InvalidIndex
  | ModelIndex anc r c => topLevelFrom anc r c
  end.

Definition model_findTopLevelItemIndex (index : QModelIndex)
    : Prog World QModelIndex :=
  fun w => (Return (findTopLevelItemIndex index), w).

(** ** The items' attributes and methods *)

(** Reading an attribute of the item a reference points to. *)
Definition item_attr {A} (f : RepoTreeItem -> A) (item : ItemRef)
    : Prog World A :=
  fun w =>
    match getAt item (rootItem w) with
    | Some t => (Return (f t), w)
    | None => (Raise (LookupError "the item is not in the tree"), w)
    end.

(** [item.fileName] *)
Definition item_fileName (item : ItemRef) : Prog World string :=
  item_attr fileName item.

(** [type(item)] *)
Definition item_type (item : ItemRef) : Prog World RtiClass :=
  item_attr rtiClass item.

(** Modelled from the spec: [TreeItem.childNumber() -> position], the
    position of the item among the children of its parent (0 for the
    root, which has no parent). *)
Definition item_childNumber (item : ItemRef) : Prog World nat :=
  item_attr (fun _ => default 0%nat (last item)) item.

(** Modelled from the spec: [TreeItem.open()], "resource acquisition is the
    item's responsibility": the resource of the item is open afterwards. *)
Definition item_open (item : ItemRef) : Prog World unit :=
  o ← item_attr oid item;
  act (fun w =>
         with_openResources ({[o]} ∪ openResources w) (record (ItemOpen o) w)).

(** Modelled from the spec: [TreeItem.close()]: the resource of the item is
    released. *)
Definition item_close (item : ItemRef) : Prog World unit :=
  o ← item_attr oid item;
  act (fun w =>
         with_openResources (release [o] (openResources w))
           (record (ItemClose o) w)).

(** Modelled from the spec: [rtiClass.createFromFileName(fileName) ->
    TreeItem] "constructs the item from the file": a new item of that
    class for that file, in no tree, without children. *)
Definition createFromFileName (cls : RtiClass) (name : string)
    : Prog World RepoTreeItem :=
  fun w =>
    (Return (mkRti (nextOid w) cls name None []),
     with_nextOid (S (nextOid w)) (record (RtiCreateFromFileName cls name) w)).

(** ** The toolkit's view and selection model *)

(** Modelled from the spec: the "expanded/collapsed display state" the
    toolkit's tree view keeps.  After [setExpanded(index, expanded)] the
    item at the index is shown expanded or collapsed; nothing changes for
    the invalid index or an index that names no node. *)
Definition setExpandedState (index : QModelIndex) (expanded : bool)
    (w : World) : World :=
  match isValid index, getAt (itemPath index) (rootItem w) with
  | true, Some t =>
      with_expandedItems
        (if expanded then {[oid t]} ∪ expandedItems w
         else expandedItems w ∖ {[oid t]}) w
  | _, _ => w
  end.

(** [self.setExpanded(index, expanded)] *)
Definition view_setExpanded (index : QModelIndex) (expanded : bool)
    : Prog World unit :=
  fun w =>
    (Return tt,
     setExpandedState index expanded (record (ViewSetExpanded index expanded) w)).

(** [self.expand(index)] *)
Definition view_expand (index : QModelIndex) : Prog World unit :=
  fun w => (Return tt, setExpandedState index true (record (ViewExpand index) w)).

(** [self.collapse(index)] *)
Definition view_collapse (index : QModelIndex) : Prog World unit :=
  fun w =>
    (Return tt, setExpandedState index false (record (ViewCollapse index) w)).

(** [selectionModel.currentIndex()] *)
Definition selectionModel_currentIndex : Prog World QModelIndex :=
  fun w => (Return (currentIndex w), w).

(** Modelled from the spec: the toolkit's
    [QItemSelectionModel.setCurrentIndex(index, flags)]: the index becomes
    the current one and, unless the flags are [NoUpdate], the selection is
    updated by [select]. *)
Definition selectionModel_setCurrentIndex (index : QModelIndex)
    (flags : SelectionFlags) : Prog World unit :=
  fun w =>
    let w := record (SelectionSetCurrentIndex index flags) w in
    (Return tt,
     with_selection index
       (if flags =? NoUpdate then selection w
        else select index flags (selection w)) w).

(** ** class [RepoTreeView] *)

(** [RepoTreeView.loadRepoTreeItem(self, repoTreeItem, expand=False,
    position=None, parentIndex=QtCore.QModelIndex())] *)
Definition loadRepoTreeItem (repoTreeItem : RepoTreeItem) (expand : bool)
    (position : option nat) (parentIndex : QModelIndex)
    : Prog World QModelIndex :=
  py_assert (bool_decide (parentItem repoTreeItem = None))
    "repoTreeItem {!r}";;
  storeRootIndex ← model_insertItem repoTreeItem position parentIndex;
  view_setExpanded storeRootIndex expand;;
  mret storeRootIndex.

(** [RepoTreeView.setCurrentIndex(self, currentIndex)] *)
Definition setCurrentIndex (currentIndex : QModelIndex) : Prog World unit :=
  let selectionFlags := Z.lor ClearAndSelect Rows in
  selectionModel_setCurrentIndex currentIndex selectionFlags.

(** [RepoTreeView._getCurrentIndex(self)] *)
Definition _getCurrentIndex : Prog World QModelIndex :=
  curIndex ← selectionModel_currentIndex;
  let col0Index := sibling curIndex (row curIndex) 0 in
  mret col0Index.

(** [RepoTreeView._getCurrentItem(self)] *)
Definition _getCurrentItem : Prog World (ItemRef * QModelIndex) :=
  currentIndex ← _getCurrentIndex;
  currentItem ← model_getItem currentIndex;
  mret (currentItem, currentIndex).

(** [RepoTreeView.openCurrentItem(self)] *)
Definition openCurrentItem : Prog World unit :=
  logger_debug "openCurrentItem";;
  '(currentItem, currentIndex) ← _getCurrentItem;
  item_open currentItem;;
  view_expand currentIndex.

(** [RepoTreeView.closeCurrentItem(self)] *)
Definition closeCurrentItem : Prog World unit :=
  logger_debug "closeCurrentItem";;
  '(currentItem, currentIndex) ← _getCurrentItem;
  model_removeAllChildrenAtIndex currentIndex;;
  item_close currentItem;;
  view_collapse currentIndex.

(** [RepoTreeView.removeCurrentFile(self)] *)
Definition removeCurrentFile : Prog World unit :=
  logger_debug "removeCurrentFile";;
  currentIndex ← _getCurrentIndex;
  topLevelIndex ← model_findTopLevelItemIndex currentIndex;
  model_deleteItemByIndex topLevelIndex.

Section FileReload.

(** [RepoTreeModel.findFileRtiIndex(index)] "locates the file-node ancestor
    of the current item".  What makes a node a file node is not told; the
    function is a parameter, given the tree and the index. *)
Variable findFileRtiIndex : RepoTreeItem -> QModelIndex -> QModelIndex.

Definition model_findFileRtiIndex (index : QModelIndex)
    : Prog World QModelIndex :=
  fun w => (Return (findFileRtiIndex (rootItem w) index), w).

(** [RepoTreeView.reloadFileOfCurrentItem(self)] *)
Definition reloadFileOfCurrentItem : Prog World QModelIndex :=
  logger_debug "reloadFileOfCurrentItem";;
  currentIndex ← _getCurrentIndex;
  fileRtiIndex ← model_findFileRtiIndex currentIndex;
  let fileRtiParentIndex := parent fileRtiIndex in
  fileRti ← model_getItem fileRtiIndex;
  fileName ← item_fileName fileRti;
  rtiClass ← item_type fileRti;
  position ← item_childNumber fileRti;
  model_deleteItemByIndex fileRtiIndex;;
  newRti ← createFromFileName rtiClass fileName;
  newRtiIndex ← loadRepoTreeItem newRti true (Some position)
                   fileRtiParentIndex;
  setCurrentIndex newRtiIndex;;
  mret newRtiIndex.

(** Reload in the words of its contract: remove the file node, load a node
    constructed from the same file, of the same class, at the same position
    under the same parent, and let the selection follow the new node. *)
Definition remove_then_load (fileRtiIndex : QModelIndex) (cls : RtiClass)
    (name : string) : Prog World QModelIndex :=
  model_deleteItemByIndex fileRtiIndex;;
  newRti ← createFromFileName cls name;
  newRtiIndex ← loadRepoTreeItem newRti true
                   (Some (Z.to_nat (row fileRtiIndex))) (parent fileRtiIndex);
  setCurrentIndex newRtiIndex;;
  mret newRtiIndex.

End FileReload.

(** ** Reading a world *)

(** The index normalized to column 0. *)
Definition column0 (i : QModelIndex) : QModelIndex :=
  match i with
  | InvalidIndex => InvalidIndex
  | ModelIndex anc r _ => ModelIndex anc r 0
  end.

(** The selection that is exactly the row of an index (no row for the
    invalid index, which names no node). *)
Definition rowOf (i : QModelIndex) : list SelectionRange :=
  match i with
  | InvalidIndex => []
  | ModelIndex anc r _ => [RowRange anc r]
  end.

(** The view has no current item that is not selected. *)
Definition currentIsSelected (w : World) : bool :=
  implb (isValid (currentIndex w)) (isSelected (selection w) (currentIndex w)).

(** The resources of the descendants of the node at [index] that are
    open. *)
Definition liveDescendants (index : QModelIndex) (w : World) : list Oid :=
  match getAt (itemPath index) (rootItem w) with
  | Some t => filter (fun o => o ∈ openResources w) (descendantOids t)
  | None => []
  end.

End RepoTreeView.

(** * The rest of [libargos/utils/misc.py] *)

Module MiscArgs.

(** [remove_process_serial_number(arg_list)] *)
Definition remove_process_serial_number (arg_list : list string)
    : list string :=
  List.filter (fun arg => negb (String.prefix "-psn_0_" arg)) arg_list.

End MiscArgs.

(** * The rest of the delegate *)

Module ConfigEditing.
Import Qt ConfigTreeView.

(** The CTI method that fills an editor: [cti.setEditorValue(editor,
    value)] changes the editor; the editor after the call is its result. *)
Class ConfigTreeItemEditing (Cti Value Editor : Type) : Type := {
  setEditorValue : Cti -> Editor -> Value -> Editor;
}.

Section Editing.
Context {M Cti Value Editor : Type}.
Context `{!ConfigTreeModel M Cti Value} `{!ConfigTreeItem Cti Value Editor}.
Context `{!ConfigTreeItemEditing Cti Value Editor}.

(** [ConfigItemDelegate.setEditorData(self, editor, index)]; the editor is
    changed in place, and returned here as it is after the call. *)
Definition setEditorData (editor : Editor) (index : QModelIndex)
    : Prog (World M Cti Value Editor) Editor :=
  data ← model_data index EditRole;
  cti ← model_getItem index;
  mret (setEditorValue cti editor data).

End Editing.

End ConfigEditing.

(** * The header menus of the two views *)

Module HeaderMenus.

(** Statements that return or raise, without a state. *)
#[global] Instance Outcome_ret : MRet Outcome := fun A a => Return a.

#[global] Instance Outcome_bind : MBind Outcome :=
  fun A B f m =>
    match m with
    | Return a => f a
    | Raise e => Raise e
    end.

(** [l[i]]: a negative index counts from the end; an index outside the
    list raises [IndexError], which is a [LookupError]. *)
Definition list_getitem {A} (l : list A) (i : Z) : Outcome A :=
  let n := Z.of_nat (length l) in
  let j := if i <? 0 then i + n else i in
  if (0 <=? j) && (j <? n) then
    match l !! Z.to_nat j with
    | Some x => Return x
    | None => Raise (LookupError "list index out of range")
    end
  else Raise (LookupError "list index out of range").

(** [dict((name, v) for name in names)] *)
Definition dict_of_names (names : list string) (v : bool) : gmap string bool :=
  foldl (fun d name => <[name := v]> d) ∅ names.

(** The two dictionaries [ConfigTreeView.__init__] hands to
    [addHeaderContextMenu], as [(checked, enabled)];
    [headerNames] are [self.model().horizontalHeaders], and the two column
    numbers are [ConfigTreeModel.COL_NODE_NAME] and
    [ConfigTreeModel.COL_VALUE]. *)
Definition config_header_menu (headerNames : list string)
    (COL_NODE_NAME COL_VALUE : Z)
    : Outcome (gmap string bool * gmap string bool) :=
  let enabled := dict_of_names headerNames true in
  name ← list_getitem headerNames COL_NODE_NAME;
  let enabled := <[name := false]> enabled in
  name ← list_getitem headerNames COL_VALUE;
  let enabled := <[name := false]> enabled in
  let checked := dict_of_names headerNames false in
  name ← list_getitem headerNames COL_NODE_NAME;
  let checked := <[name := true]> checked in
  name ← list_getitem headerNames COL_VALUE;
  let checked := <[name := true]> checked in
  mret (checked, enabled).

(** The dictionary [RepoTreeView.__init__] hands to [addHeaderContextMenu]
    as [enabled]. *)
Definition repo_header_menu (headerNames : list string)
    : Outcome (gmap string bool) :=
  let enabled := dict_of_names headerNames true in
  name ← list_getitem headerNames 0;
  let enabled := <[name := false]> enabled in
  mret enabled.

(** The index is one of the list: [-len(l) <= i < len(l)]. *)
Definition index_in_range {A} (l : list A) (i : Z) : Prop :=
  - Z.of_nat (length l) <= i < Z.of_nat (length l).

End HeaderMenus.

(** * Loading a file in the repository view *)

Module RepoFiles.
Import Qt RepoTreeView.

Section LoadFile.

(** [detectRtiFromFileName(fileName)], of [libargos.repo.filesytemrti]:
    the class of item for a file, a parameter. *)
Variable detectRtiFromFileName : string -> RtiClass.

(** [RepoTreeView.loadFile(self, fileName, expand=False, rtiClass=None)] *)
Definition loadFile (fileName : string) (expand : bool)
    (rtiClass : option RtiClass) : Prog World QModelIndex :=
  let rtiClass :=
    match rtiClass with
    | None => detectRtiFromFileName fileName
    | Some cls => cls
    end in
  repoTreeItem ← createFromFileName rtiClass fileName;
  loadRepoTreeItem repoTreeItem expand None InvalidIndex.

End LoadFile.

End RepoFiles.

(** * Running a program *)

(** A sequence runs its first statement, then the rest. *)
Lemma bind_Return {S A B} (m : Prog S A) (f : A -> Prog S B) (s s' : S) (a : A) :
  m s = (Return a, s') -> (m ≫= f) s = f a s'.
Proof. intros H. unfold mbind, Prog_bind. rewrite H. reflexivity. Qed.

(** An exception ends the sequence. *)
Lemma bind_Raise {S A B} (m : Prog S A) (f : A -> Prog S B) (s s' : S) (e : Exn) :
  m s = (Raise e, s') -> (m ≫= f) s = (Raise e, s').
Proof. intros H. unfold mbind, Prog_bind. rewrite H. reflexivity. Qed.

(** The monad is unfolded and the calls are made. *)
Ltac run_prog :=
  unfold mbind, mret, Prog_bind, Prog_ret, py_assert, raise, act,
    try_except_else;
  cbn.

(** * Properties of [libargos/utils/misc.py] *)

Section MiscProperties.
Import Misc.

(** A statement about every character is settled on the 256 of them. *)
Ltac each_char c :=
  destruct c as [[] [] [] [] [] [] [] []]; vm_compute; try reflexivity;
  try (intros; discriminate); try (intros; repeat split; congruence).

Lemma lower_char_space c : is_space (lower_char c) = is_space c.
Proof. each_char c. Qed.

Lemma lower_char_hyphen c : is_hyphen (lower_char c) = is_hyphen c.
Proof. each_char c. Qed.

Lemma lower_char_word c : is_word (lower_char c) = is_word c.
Proof. each_char c. Qed.

Lemma lower_char_identifier c :
  is_word c = true -> is_identifier_char (lower_char c) = true.
Proof. each_char c. Qed.

Lemma space_not_hyphen c : is_space c = true -> is_hyphen c = false.
Proof. each_char c. Qed.

Lemma identifier_char_fixed c :
  is_identifier_char c = true ->
  lower_char c = c /\ is_space c = false /\ is_hyphen c = false /\ is_word c = true.
Proof. each_char c. Qed.

Lemma append_String c (s t : string) :
  String.append (String c s) t = String c (String.append s t).
Proof. reflexivity. Qed.

Lemma append_Empty (t : string) : String.append EmptyString t = t.
Proof. reflexivity. Qed.

Lemma re_sub_class_String cls repl c (r : string) :
  re_sub_class cls repl (String c r)
  = if cls c then String.append repl (re_sub_class cls repl r)
    else String c (re_sub_class cls repl r).
Proof. reflexivity. Qed.

(** The three substitutions after [lower] compute [identifier_of]. *)
Lemma substitutions_identifier_of (s : string) : forall b,
  re_sub_class (fun c => negb (is_word c)) ""
    (re_sub_class is_hyphen "_" (re_sub_runs is_space "_" b (lower s)))
  = identifier_of b s.
Proof.
  induction s as [|c r IH]; intros b; [reflexivity|].
  cbn [lower re_sub_runs identifier_of].
  rewrite lower_char_space.
  destruct (is_space c) eqn:Hsp.
  - destruct b; [apply IH|].
    rewrite append_String, append_Empty, re_sub_class_String.
    change (is_hyphen "_") with false. cbv iota.
    rewrite re_sub_class_String.
    change (is_word "_") with true. cbn [negb].
    rewrite IH. reflexivity.
  - rewrite re_sub_class_String, lower_char_hyphen.
    destruct (is_hyphen c) eqn:Hhy.
    + rewrite append_String, append_Empty, re_sub_class_String.
      change (is_word "_") with true. cbn [negb].
      rewrite IH. reflexivity.
    + rewrite re_sub_class_String, lower_char_word.
      destruct (is_word c); cbn [negb];
        rewrite ?append_Empty, IH; reflexivity.
Qed.

Lemma identifier_of_chars (s : string) : forall b,
  all_chars is_identifier_char (identifier_of b s) = true.
Proof.
  induction s as [|c r IH]; intros b; [reflexivity|].
  cbn [identifier_of].
  destruct (is_space c).
  { destruct b; cbn [all_chars]; rewrite IH; reflexivity. }
  destruct (is_hyphen c).
  { cbn [all_chars]. rewrite IH. reflexivity. }
  destruct (is_word c) eqn:Hw; [|apply IH].
  cbn [all_chars]. rewrite (lower_char_identifier _ Hw), IH. reflexivity.
Qed.

Lemma identifier_of_fixed (t : string) :
  all_chars is_identifier_char t = true -> forall b, identifier_of b t = t.
Proof.
  induction t as [|c r IH]; intros H b; [reflexivity|].
  cbn [all_chars] in H. apply andb_prop in H as [Hc Hr].
  destruct (identifier_char_fixed c Hc) as (Hl & Hsp & Hhy & Hw).
  cbn [identifier_of]. rewrite Hsp, Hhy, Hw, Hl, (IH Hr). reflexivity.
Qed.

(** C9. For every string [s], [string_to_identifier s] is made of lowercase
    letters, digits and underscores only; it is the input with every run of
    whitespace and every hyphen turned into an underscore, the letters
    lowered and every other disallowed character removed
    ([identifier_of]); and [string_to_identifier] is idempotent. *)
Theorem string_to_identifier_identifier (s : string) :
  all_chars is_identifier_char (string_to_identifier s) = true
  /\ string_to_identifier s = identifier_of false s
  /\ string_to_identifier (string_to_identifier s) = string_to_identifier s.
Proof.
  assert (E : forall t, string_to_identifier t = identifier_of false t)
    by (intros t; apply substitutions_identifier_of).
  repeat split.
  - rewrite E. apply identifier_of_chars.
  - apply E.
  - rewrite (E (string_to_identifier s)), E.
    apply identifier_of_fixed, identifier_of_chars.
Qed.

Lemma prefix_point_yes (r : string) : String.prefix "." (String "." r) = true.
Proof.
  destruct r; reflexivity.
Qed.

Lemma prefix_point_no c (r : string) :
  c <> "."%char -> String.prefix "." (String c r) = false.
Proof.
  intros Hne.
  destruct r; cbn [String.prefix]; destruct (ascii_dec "."%char c); congruence.
Qed.

(** C10. For every string, [prepend_point_to_extension] returns a string
    that starts with a point; a string that starts with a point is returned
    as it is, any other string gets exactly one point in front; and the
    function is idempotent. *)
Theorem prepend_point_to_extension_point (s : string) :
  String.get 0 (prepend_point_to_extension s) = Some "."%char
  /\ (String.get 0 s = Some "."%char -> prepend_point_to_extension s = s)
  /\ (String.get 0 s <> Some "."%char ->
      prepend_point_to_extension s = String "." s)
  /\ prepend_point_to_extension (prepend_point_to_extension s)
     = prepend_point_to_extension s.
Proof.
  unfold prepend_point_to_extension.
  destruct s as [|c r].
  - cbn. repeat split; intros; congruence.
  - destruct (ascii_dec c "."%char) as [->|Hne].
    + rewrite !prefix_point_yes. cbn. repeat split; intros; congruence.
    + rewrite (prefix_point_no c r Hne), append_String, append_Empty.
      rewrite prefix_point_yes. cbn. repeat split; intros; congruence.
Qed.

(** [".txt"] is kept, ["txt"] gets its point. *)
Lemma prepend_point_to_extension_point_witness :
  prepend_point_to_extension ".txt" = ".txt"%string
  /\ prepend_point_to_extension "txt" = ".txt"%string.
Proof.
  destruct (prepend_point_to_extension_point ".txt") as (_ & Hkeep & _).
  destruct (prepend_point_to_extension_point "txt") as (_ & _ & Hadd & _).
  split; [apply Hkeep; reflexivity | apply Hadd; discriminate].
Defined.

End MiscProperties.

(** * Properties of [libargos/widgets/configtreeview.py] *)

Section ConfigProperties.
Import Qt ConfigTreeView.
Context {M Cti Value Editor : Type}.
Context `{!ConfigTreeModel M Cti Value} `{!ConfigTreeItem Cti Value Editor}.

Local Abbreviation World := (World M Cti Value Editor).


Lemma finalizeEditor_run (editor : Editor) (w : World) :
  finalizeEditor editor w =
  (Return tt,
   record (if isCtiEditor editor then EditorFinalize editor
           else LoggerDebug "Editor not a CtiEditor. No finalized() called.") w).
Proof. unfold finalizeEditor. destruct (isCtiEditor editor); reflexivity. Qed.

(** [createEditor] checks the index before it asks the model for the node. *)
Lemma delegate_createEditor_run (parent : QWidget)
    (opt : QStyleOptionViewItem) (index : QModelIndex) (w : World) :
  let entered :=
    record (LoggerDebug "ConfigItemDelegate.createEditor, parent: {!r}") w in
  delegate_createEditor parent opt index w =
  if isValid index then
    let cti := getItem (model w) index in
    (createEditor cti parent opt,
     record (CtiCreateEditor cti parent opt)
       (record (ModelGetItem index) entered))
  else
    (Raise (AssertionError "sanity check failed: invalid index"), entered).
Proof.
  unfold delegate_createEditor. run_prog.
  destruct (isValid index); run_prog; [|reflexivity].
  destruct (createEditor _ _ _); reflexivity.
Qed.

(** C1. [setModelData]: when the node's [getEditorValue] raises
    [InvalidInputError] the error is logged, nothing is raised, the model is
    the one before the call (so [data index EditRole] is unchanged) and no
    [setData] call is made; when it returns [v], [setData index v EditRole]
    is called exactly once on the model, and the model after the call is
    the result of that one call: the node is read, never written. *)
Theorem setModelData_through_model (editor : Editor) (index : QModelIndex)
    (w : World) :
  let cti := getItem (model w) index in
  let asked :=
    calls w ++ [LoggerDebug "ConfigItemDelegate.setModelData: editor {}";
                ModelGetItem index; CtiGetEditorValue cti editor] in
  (forall msg, getEditorValue cti editor = Raise (InvalidInputError msg) ->
     exists w', setModelData editor index w = (Return tt, w')
       /\ model w' = model w
       /\ data (model w') index EditRole = data (model w) index EditRole
       /\ calls w' = asked ++ [LoggerWarn (InvalidInputError msg)]
       /\ setData_calls (calls w') = setData_calls (calls w))
  /\ (forall v, getEditorValue cti editor = Return v ->
     exists w', setModelData editor index w = (Return tt, w')
       /\ model w' = setData (model w) index v EditRole
       /\ calls w' = asked ++ [ModelSetData index v EditRole]
       /\ setData_calls (calls w')
          = setData_calls (calls w) ++ [(index, v, EditRole)]).
Proof.
  cbv zeta. split.
  - intros msg Hraise. eexists. split.
    + unfold setModelData. run_prog. rewrite Hraise. reflexivity.
    + cbn. repeat split.
      * rewrite <- !app_assoc. reflexivity.
      * unfold setData_calls. rewrite !omap_app. cbn.
        rewrite !app_nil_r. reflexivity.
  - intros v Hret. eexists. split.
    + unfold setModelData. run_prog. rewrite Hret. reflexivity.
    + cbn. repeat split.
      * rewrite <- !app_assoc. reflexivity.
      * unfold setData_calls. rewrite !omap_app. cbn.
        rewrite !app_nil_r. reflexivity.
Qed.

(** C6. [ConfigTreeView.closeEditor] calls the delegate's [finalizeEditor]
    on the editor and then the base class's [closeEditor]; and
    [finalizeEditor] calls [editor.finalize()] when the editor is a
    [CtiEditor] and makes no [finalize] call for any other editor. *)
Theorem closeEditor_finalizes_first (editor : Editor) (hint : EndEditHint)
    (w : World) :
  let finalized := snd (finalizeEditor editor w) in
  fst (finalizeEditor editor w) = Return tt
  /\ model finalized = model w
  /\ calls finalized
     = calls w ++ [if isCtiEditor editor then EditorFinalize editor
                   else LoggerDebug "Editor not a CtiEditor. No finalized() called."]
  /\ finalize_calls (calls finalized)
     = finalize_calls (calls w) ++ (if isCtiEditor editor then [editor] else [])
  /\ closeEditor editor hint w
     = (Return tt, record (BaseCloseEditor editor hint) finalized).
Proof.
  cbv zeta. unfold closeEditor. run_prog. rewrite finalizeEditor_run. cbn.
  repeat split.
  unfold finalize_calls. rewrite omap_app.
  destruct (isCtiEditor editor); cbn; rewrite ?app_nil_r; reflexivity.
Qed.

(** C8. [paint]: in the value column the edit-role value is fetched from
    the model, the node is retrieved and its [paintDisplayValue] is called;
    in any other column none of these calls is made.  The base class's
    [paint] is called (once) exactly when the index is not in the value
    column or [paintDisplayValue] returned false. *)
Theorem paint_falls_back (painter : QPainter) (opt : QStyleOptionViewItem)
    (index : QModelIndex) (w : World) :
  let value := data (model w) index EditRole in
  let cti := getItem (model w) index in
  let in_value_column := column index =? COL_VALUE in
  let painted := paintDisplayValue cti painter opt value in
  let custom :=
    if in_value_column
    then [ModelData index EditRole; ModelGetItem index;
          CtiPaintDisplayValue cti painter opt value]
    else [] in
  let standard :=
    if negb in_value_column || negb painted
    then [BasePaint painter opt index] else [] in
  paint painter opt index w
  = (Return tt, mkWorld (model w) (calls w ++ custom ++ standard))
  /\ (In (BasePaint painter opt index) (custom ++ standard)
      <-> in_value_column = false \/ painted = false)
  /\ base_paint_calls (custom ++ standard)
     = if negb in_value_column || negb painted
       then [(painter, opt, index)] else [].
Proof.
  cbv zeta. unfold paint. run_prog.
  destruct (column index =? COL_VALUE) eqn:Hcol; cbn.
  - destruct (paintDisplayValue _ _ _ _) eqn:Hp; cbn;
      unfold base_paint, record; cbn; rewrite <- ?app_assoc; cbn;
      (split; [reflexivity|]); (split; [|reflexivity]); split.
    + intros [|[|[|[]]]]; discriminate.
    + intros [|]; discriminate.
    + auto.
    + intros _. do 3 right. left. reflexivity.
  - unfold base_paint, record. cbn. repeat split; auto.
Qed.

End ConfigProperties.

(** ** A configuration with integer values

    The model holds one integer per row; a node is known by its row; an
    editor holds the input typed so far, an integer or something that is
    none, and is a [CtiEditor] or a plain widget. *)

Section ConfigExample.
Import Qt ConfigTreeView.

Record SpinBox : Type := mkSpinBox {
  input : option Z;
  wrapped : bool;
}.

#[local] Instance example_model : ConfigTreeModel (list Z) nat Z := {|
  COL_VALUE := 1;
  getItem m i := Z.to_nat (row i);
  data m i role := default 0 (m !! Z.to_nat (row i));
  setData m i v role := <[Z.to_nat (row i) := v]> m;
|}.

#[local] Instance example_item : ConfigTreeItem nat Z SpinBox := {|
  paintDisplayValue cti painter opt v := 0 <=? v;
  createEditor cti parent opt := Return (mkSpinBox None true);
  getEditorValue cti editor :=
    match input editor with
    | Some v => Return v
    | None => Raise (InvalidInputError "not a number")
    end;
  isCtiEditor := wrapped;
|}.

Definition example_config : World (list Z) nat Z SpinBox :=
  mkWorld [10; 20; 30] [].

(** A commit of input that is no number leaves the value of the second row
    at 20; a commit of 7 makes the one [setData] call. *)
Lemma setModelData_through_model_witness :
  data (model (snd (setModelData (mkSpinBox None true) (ModelIndex [] 1 1)
                      example_config)))
    (ModelIndex [] 1 1) EditRole = 20
  /\ setData_calls
       (calls (snd (setModelData (mkSpinBox (Some 7) true) (ModelIndex [] 1 1)
                      example_config)))
     = [(ModelIndex [] 1 1, 7, EditRole)].
Proof.
  destruct (setModelData_through_model (mkSpinBox None true)
              (ModelIndex [] 1 1) example_config) as [Hbad _].
  destruct (Hbad "not a number"%string eq_refl)
    as (w' & Hrun & _ & Hdata & _).
  destruct (setModelData_through_model (mkSpinBox (Some 7) true)
              (ModelIndex [] 1 1) example_config) as [_ Hgood].
  destruct (Hgood 7 eq_refl) as (w'' & Hrun' & _ & _ & Hcalls).
  rewrite Hrun, Hrun'. split; [exact Hdata | exact Hcalls].
Defined.

End ConfigExample.

(** * Properties of [libargos/widgets/repotreeview.py] *)

Section RepoProperties.
Import Qt RepoTreeView.

(** ** Indices *)

Lemma sibling_row_0 (i : QModelIndex) : sibling i (row i) 0 = column0 i.
Proof.
  destruct i as [|anc r c]; [reflexivity|].
  cbn. rewrite Nat2Z.id.
  replace (0 <=? Z.of_nat r) with true by (symmetry; apply Z.leb_le; lia).
  reflexivity.
Qed.

Lemma itemPath_column0 (i : QModelIndex) : itemPath (column0 i) = itemPath i.
Proof. destruct i; reflexivity. Qed.

Lemma isValid_column0 (i : QModelIndex) : isValid (column0 i) = isValid i.
Proof. destruct i; reflexivity. Qed.

Lemma itemPath_parent anc r c :
  itemPath (parent (ModelIndex anc r c)) = rev anc.
Proof. destruct anc; reflexivity. Qed.

Lemma itemPath_ModelIndex anc r c :
  itemPath (ModelIndex anc r c) = rev anc ++ [r].
Proof. reflexivity. Qed.

Lemma childIndex_parent anc r c k :
  childIndex (parent (ModelIndex anc r c)) k = ModelIndex anc k 0.
Proof. destruct anc; reflexivity. Qed.

(** The walk up ends at the first row of the path from the root. *)
Lemma topLevelFrom_head (anc : list nat) : forall r k,
  head (rev (r :: anc)) = Some k -> topLevelFrom anc r 0 = ModelIndex [] k 0.
Proof.
  induction anc as [|a anc IH]; intros r k H.
  - cbn in H. injection H as <-. reflexivity.
  - cbn [topLevelFrom]. apply IH.
    change (rev (r :: a :: anc)) with (rev (a :: anc) ++ [r]) in H.
    destruct (rev (a :: anc)) as [|x l] eqn:E; [|exact H].
    apply (f_equal (@length nat)) in E. rewrite length_rev in E. discriminate.
Qed.

(** ** Trees *)

Lemma with_children_with_children t cs cs' :
  with_children (with_children t cs) cs' = with_children t cs'.
Proof. reflexivity. Qed.

Lemma getAt_app (p q : list nat) : forall t,
  getAt (p ++ q) t = getAt p t ≫= getAt q.
Proof.
  induction p as [|k p IH]; intros t; [reflexivity|].
  cbn. destruct (childItems t !! k); [apply IH|reflexivity].
Qed.

Lemma updateAt_putAt (p : list nat) f : forall t x y,
  getAt p t = Some x -> f x = Some y -> updateAt p f t = Some (putAt p y t).
Proof.
  induction p as [|k p IH]; intros t x y Hget Hf.
  - cbn in *. congruence.
  - cbn in *. destruct (childItems t !! k) as [c|]; [|discriminate].
    rewrite (IH _ _ _ Hget Hf). reflexivity.
Qed.

Lemma getAt_putAt (p : list nat) : forall t x y,
  getAt p t = Some x -> getAt p (putAt p y t) = Some y.
Proof.
  induction p as [|k p IH]; intros t x y Hget; [reflexivity|].
  cbn in *. destruct (childItems t !! k) as [c|] eqn:Hc; [|discriminate].
  cbn. rewrite list_lookup_insert_eq by (eapply lookup_lt_Some; eauto).
  eapply IH; eauto.
Qed.

Lemma putAt_putAt (p : list nat) : forall t x y z,
  getAt p t = Some x -> putAt p z (putAt p y t) = putAt p z t.
Proof.
  induction p as [|k p IH]; intros t x y z Hget; [reflexivity|].
  cbn in *. destruct (childItems t !! k) as [c|] eqn:Hc; [|discriminate].
  cbn. rewrite list_lookup_insert_eq by (eapply lookup_lt_Some; eauto).
  rewrite with_children_with_children, list_insert_insert_eq.
  erewrite IH by eauto. reflexivity.
Qed.

Lemma getAt_snoc (p : list nat) (k : nat) t x :
  getAt (p ++ [k]) t = Some x ->
  exists node, getAt p t = Some node /\ childItems node !! k = Some x.
Proof.
  rewrite getAt_app. destruct (getAt p t) as [node|]; [|discriminate].
  cbn. intros H. exists node. split; [reflexivity|].
  destruct (childItems node !! k); [exact H|discriminate].
Qed.

Lemma getAt_putAt_child (p : list nat) (k : nat) t node node' x :
  getAt p t = Some node -> childItems node' !! k = Some x ->
  getAt (p ++ [k]) (putAt p node' t) = Some x.
Proof.
  intros Hget Hk. rewrite getAt_app, (getAt_putAt _ _ _ _ Hget).
  cbn. rewrite Hk. reflexivity.
Qed.

(** Removing the child at [k] and inserting an item at [k] replaces the
    child at [k]. *)
Lemma take_drop_delete {A} (l : list A) (k : nat) (x y : A) :
  l !! k = Some y ->
  take k (delete k l) ++ x :: drop k (delete k l) = <[k := x]> l.
Proof.
  revert k. induction l as [|a l IH]; intros [|k] H; try discriminate.
  - cbn. rewrite drop_0. reflexivity.
  - cbn in *. f_equal. apply IH, H.
Qed.

Lemma length_delete_lt {A} (l : list A) (k : nat) (y : A) :
  l !! k = Some y -> (k <= length (delete k l))%nat.
Proof.
  intros H. pose proof (lookup_lt_Some _ _ _ H) as Hlt.
  rewrite length_delete by eauto. lia.
Qed.


(** ** Running the view's methods *)

Lemma _getCurrentIndex_run (w : World) :
  _getCurrentIndex w = (Return (column0 (currentIndex w)), w).
Proof.
  unfold _getCurrentIndex, selectionModel_currentIndex.
  unfold mbind, mret, Prog_bind, Prog_ret.
  rewrite sibling_row_0. reflexivity.
Qed.

Lemma _getCurrentItem_run (w : World) (item : RepoTreeItem) :
  getAt (itemPath (currentIndex w)) (rootItem w) = Some item ->
  _getCurrentItem w
  = (Return (itemPath (currentIndex w), column0 (currentIndex w)), w).
Proof.
  intros H. unfold _getCurrentItem.
  rewrite (bind_Return _ _ _ _ _ (_getCurrentIndex_run w)).
  unfold model_getItem, mbind, mret, Prog_bind, Prog_ret.
  rewrite itemPath_column0, H. reflexivity.
Qed.

(** [loadRepoTreeItem] checks the item before it touches the model. *)
Lemma loadRepoTreeItem_run (item : RepoTreeItem) (expand : bool)
    (position : option nat) (parentIndex : QModelIndex) (w : World) :
  loadRepoTreeItem item expand position parentIndex w =
  match parentItem item with
  | None =>
      (storeRootIndex ← model_insertItem item position parentIndex;
       view_setExpanded storeRootIndex expand;;
       mret storeRootIndex) w
  | Some _ => (Raise (AssertionError "repoTreeItem {!r}"), w)
  end.
Proof.
  unfold loadRepoTreeItem. destruct (parentItem item); reflexivity.
Qed.

(** [insertItem] raises no assertion error. *)
Lemma model_insertItem_outcome (item : RepoTreeItem) (position : option nat)
    (parentIndex : QModelIndex) (w : World) (msg : string) :
  fst (model_insertItem item position parentIndex w) <> Raise (AssertionError msg).
Proof.
  unfold model_insertItem. cbn.
  destruct (getAt _ _); [|discriminate].
  destruct (updateAt _ _ _); discriminate.
Qed.

(** [ClearAndSelect | Rows] replaces the selection by the row of the
    index. *)
Lemma select_ClearAndSelect_Rows (i : QModelIndex) (sel : list SelectionRange) :
  select i (Z.lor ClearAndSelect Rows) sel = rowOf i.
Proof. destruct i; reflexivity. Qed.

Lemma setCurrentIndex_run (i : QModelIndex) (w : World) :
  setCurrentIndex i w
  = (Return tt,
     with_selection i (rowOf i)
       (record (SelectionSetCurrentIndex i (Z.lor ClearAndSelect Rows)) w)).
Proof.
  unfold setCurrentIndex, selectionModel_setCurrentIndex. cbv zeta.
  change (Z.lor ClearAndSelect Rows =? NoUpdate) with false. cbv iota.
  rewrite select_ClearAndSelect_Rows. reflexivity.
Qed.

Lemma isSelected_rowOf (i : QModelIndex) :
  isValid i = true -> isSelected (rowOf i) i = true.
Proof.
  destruct i as [|anc r c]; [discriminate|]. intros _.
  cbn. rewrite !bool_decide_eq_true_2 by reflexivity. reflexivity.
Qed.

(** C3. After [setCurrentIndex i] the selection is exactly the row of [i],
    the current index is [i], the view resolves it ([_getCurrentIndex]) to
    [i] normalized to column 0, and the current item is selected. *)
Theorem setCurrentIndex_selects_row (i : QModelIndex) (w : World) :
  let w' := snd (setCurrentIndex i w) in
  fst (setCurrentIndex i w) = Return tt
  /\ selection w' = rowOf i
  /\ currentIndex w' = i
  /\ _getCurrentIndex w' = (Return (column0 i), w')
  /\ currentIsSelected w' = true.
Proof.
  cbv zeta. rewrite _getCurrentIndex_run, setCurrentIndex_run.
  repeat split.
  unfold currentIsSelected.
  cbn [snd currentIndex selection with_selection].
  destruct (isValid i) eqn:Hv; [|reflexivity].
  rewrite (isSelected_rowOf i Hv). reflexivity.
Qed.

(** [removeCurrentFile] with the current index anywhere below the
    top-level node at row [k]. *)
Lemma removeCurrentFile_run (w : World) (k : nat) (top : RepoTreeItem)
    (cur : QModelIndex) :
  childItems (rootItem w) !! k = Some top ->
  head (itemPath cur) = Some k ->
  removeCurrentFile (with_currentIndex cur w)
  = (Return tt,
     with_tree
       (with_children (rootItem w) (delete k (childItems (rootItem w))))
       (release (subtreeOids top) (openResources w))
       (record (ModelDeleteItemByIndex (ModelIndex [] k 0))
          (record (LoggerDebug "removeCurrentFile")
             (with_currentIndex cur w)))).
Proof.
  intros Htop Hcur. unfold removeCurrentFile.
  rewrite (bind_Return _ _ _ _ _ (eq_refl : logger_debug _ _ = (Return tt, _))).
  rewrite (bind_Return _ _ _ _ _ (_getCurrentIndex_run _)).
  destruct cur as [|anc r c]; [discriminate|].
  unfold model_findTopLevelItemIndex, mbind, Prog_bind.
  cbn [currentIndex record with_currentIndex with_selection column0
       findTopLevelItemIndex].
  rewrite (topLevelFrom_head anc r k Hcur).
  unfold model_deleteItemByIndex. cbn. rewrite Htop. reflexivity.
Qed.

(** C5. Whichever of two indices below the same top-level node is the
    current one, [removeCurrentFile] deletes the same node: the top-level
    ancestor of the current index, the node [top] at row [k] of the root;
    the tree and the open resources afterwards are the same. *)
Theorem removeCurrentFile_top_level (w : World) (k : nat)
    (top : RepoTreeItem) (i j : QModelIndex) :
  childItems (rootItem w) !! k = Some top ->
  head (itemPath i) = Some k ->
  head (itemPath j) = Some k ->
  let removed (cur : QModelIndex) :=
    with_tree
      (with_children (rootItem w) (delete k (childItems (rootItem w))))
      (release (subtreeOids top) (openResources w))
      (record (ModelDeleteItemByIndex (ModelIndex [] k 0))
         (record (LoggerDebug "removeCurrentFile")
            (with_currentIndex cur w))) in
  removeCurrentFile (with_currentIndex i w) = (Return tt, removed i)
  /\ removeCurrentFile (with_currentIndex j w) = (Return tt, removed j)
  /\ rootItem (removed i) = rootItem (removed j)
  /\ openResources (removed i) = openResources (removed j).
Proof.
  intros Htop Hi Hj. cbv zeta.
  rewrite (removeCurrentFile_run w k top i Htop Hi).
  rewrite (removeCurrentFile_run w k top j Htop Hj).
  repeat split.
Qed.


(** ** The model's operations on a node that is there *)

Ltac world_simpl :=
  cbn [rootItem openResources nextOid currentIndex selection expandedItems
       calls record with_tree with_openResources with_nextOid with_selection
       with_currentIndex with_expandedItems fst snd].

Ltac world_simpl_in H :=
  cbn [rootItem openResources nextOid currentIndex selection expandedItems
       calls record with_tree with_openResources with_nextOid with_selection
       with_currentIndex with_expandedItems fst snd] in H.

(** Two worlds with the same fields are the same world. *)
Lemma World_eq (w1 w2 : World) :
  rootItem w1 = rootItem w2 ->
  openResources w1 = openResources w2 ->
  nextOid w1 = nextOid w2 ->
  currentIndex w1 = currentIndex w2 ->
  selection w1 = selection w2 ->
  expandedItems w1 = expandedItems w2 ->
  calls w1 = calls w2 ->
  w1 = w2.
Proof. destruct w1, w2. cbn. intros. subst. reflexivity. Qed.

Lemma setExpandedState_fields (index : QModelIndex) (b : bool) (w : World) :
  rootItem (setExpandedState index b w) = rootItem w
  /\ openResources (setExpandedState index b w) = openResources w
  /\ nextOid (setExpandedState index b w) = nextOid w
  /\ currentIndex (setExpandedState index b w) = currentIndex w
  /\ selection (setExpandedState index b w) = selection w
  /\ calls (setExpandedState index b w) = calls w.
Proof.
  unfold setExpandedState.
  destruct (isValid index); [|repeat split].
  destruct (getAt _ _); repeat split.
Qed.

Lemma setExpandedState_there (index : QModelIndex) (b : bool) (w : World)
    (t : RepoTreeItem) :
  isValid index = true ->
  getAt (itemPath index) (rootItem w) = Some t ->
  setExpandedState index b w
  = with_expandedItems
      (if b then {[oid t]} ∪ expandedItems w else expandedItems w ∖ {[oid t]}) w.
Proof. intros Hv Hg. unfold setExpandedState. rewrite Hv, Hg. reflexivity. Qed.

Lemma item_attr_run {A} (f : RepoTreeItem -> A) (item : ItemRef) (w : World)
    (t : RepoTreeItem) :
  getAt item (rootItem w) = Some t -> item_attr f item w = (Return (f t), w).
Proof. intros H. unfold item_attr. rewrite H. reflexivity. Qed.

Lemma item_open_run (item : ItemRef) (w : World) (t : RepoTreeItem) :
  getAt item (rootItem w) = Some t ->
  item_open item w
  = (Return tt,
     with_openResources ({[oid t]} ∪ openResources w) (record (ItemOpen (oid t)) w)).
Proof.
  intros H. unfold item_open.
  rewrite (bind_Return _ _ _ _ _ (item_attr_run oid item w t H)).
  reflexivity.
Qed.

Lemma item_close_run (item : ItemRef) (w : World) (t : RepoTreeItem) :
  getAt item (rootItem w) = Some t ->
  item_close item w
  = (Return tt,
     with_openResources (release [oid t] (openResources w))
       (record (ItemClose (oid t)) w)).
Proof.
  intros H. unfold item_close.
  rewrite (bind_Return _ _ _ _ _ (item_attr_run oid item w t H)).
  reflexivity.
Qed.

Lemma model_removeAllChildrenAtIndex_run (index : QModelIndex) (w : World)
    (item : RepoTreeItem) :
  getAt (itemPath index) (rootItem w) = Some item ->
  model_removeAllChildrenAtIndex index w
  = (Return tt,
     with_tree (putAt (itemPath index) (with_children item []) (rootItem w))
       (release (descendantOids item) (openResources w))
       (record (ModelRemoveAllChildrenAtIndex index) w)).
Proof.
  intros H. unfold model_removeAllChildrenAtIndex. world_simpl.
  rewrite H.
  rewrite (updateAt_putAt _ (fun t => Some (with_children t [])) _ item
             (with_children item []) H eq_refl).
  reflexivity.
Qed.

Lemma model_deleteItemByIndex_run anc k c (w : World)
    (parentNode old : RepoTreeItem) :
  getAt (rev anc) (rootItem w) = Some parentNode ->
  childItems parentNode !! k = Some old ->
  model_deleteItemByIndex (ModelIndex anc k c) w
  = (Return tt,
     with_tree
       (putAt (rev anc)
          (with_children parentNode (delete k (childItems parentNode)))
          (rootItem w))
       (release (subtreeOids old) (openResources w))
       (record (ModelDeleteItemByIndex (ModelIndex anc k c)) w)).
Proof.
  intros Hp Hk. unfold model_deleteItemByIndex. world_simpl.
  rewrite itemPath_ModelIndex, itemPath_parent, getAt_app, Hp.
  cbn [mbind option_bind getAt]. rewrite Hk.
  rewrite (updateAt_putAt (rev anc) (removeChild k) _ parentNode _ Hp eq_refl).
  reflexivity.
Qed.

Lemma model_insertItem_run (item : RepoTreeItem) (pos : nat)
    (parentIndex : QModelIndex) (w : World) (parentNode : RepoTreeItem) :
  getAt (itemPath parentIndex) (rootItem w) = Some parentNode ->
  (pos <= length (childItems parentNode))%nat ->
  model_insertItem item (Some pos) parentIndex w
  = (Return (childIndex parentIndex pos),
     with_tree
       (putAt (itemPath parentIndex)
          (with_children parentNode
             (take pos (childItems parentNode)
              ++ with_parent item (Some (oid parentNode))
              :: drop pos (childItems parentNode)))
          (rootItem w))
       (openResources w)
       (record (ModelInsertItem (oid item) (Some pos) parentIndex) w)).
Proof.
  intros Hp Hpos. unfold model_insertItem. world_simpl. rewrite Hp.
  cbn [default].
  erewrite (updateAt_putAt _ _ _ parentNode _ Hp); [reflexivity|].
  unfold insertChild. rewrite decide_True by exact Hpos. reflexivity.
Qed.


(** ** Opening and closing the current item *)

Lemma not_elem_of_release (o : Oid) (items : list Oid) (res : gset Oid) :
  o ∈ items -> o ∉ release items res.
Proof.
  unfold release. intros Hin [_ Hnot]%elem_of_difference.
  apply Hnot, elem_of_list_to_set, Hin.
Qed.

Lemma release_subseteq (items : list Oid) (res : gset Oid) :
  release items res ⊆ res.
Proof. unfold release. apply subseteq_difference_l. reflexivity. Qed.

Lemma openCurrentItem_run (w : World) (item : RepoTreeItem) :
  getAt (itemPath (currentIndex w)) (rootItem w) = Some item ->
  openCurrentItem w
  = (Return tt,
     setExpandedState (column0 (currentIndex w)) true
       (record (ViewExpand (column0 (currentIndex w)))
          (with_openResources ({[oid item]} ∪ openResources w)
             (record (ItemOpen (oid item))
                (record (LoggerDebug "openCurrentItem") w))))).
Proof.
  intros H. unfold openCurrentItem.
  rewrite (bind_Return _ _ _ _ _ (eq_refl : logger_debug _ _ = (Return tt, _))).
  rewrite (bind_Return _ _ _ _ _
             (_getCurrentItem_run (record _ w) item H)).
  world_simpl.
  rewrite (bind_Return _ _ _ _ _ (item_open_run _ (record _ w) item H)).
  reflexivity.
Qed.

Lemma closeCurrentItem_run (w : World) (item : RepoTreeItem) :
  getAt (itemPath (currentIndex w)) (rootItem w) = Some item ->
  closeCurrentItem w
  = (Return tt,
     setExpandedState (column0 (currentIndex w)) false
       (record (ViewCollapse (column0 (currentIndex w)))
          (with_openResources
             (release [oid item]
                (release (descendantOids item) (openResources w)))
             (record (ItemClose (oid item))
                (with_tree
                   (putAt (itemPath (currentIndex w))
                      (with_children item []) (rootItem w))
                   (release (descendantOids item) (openResources w))
                   (record
                      (ModelRemoveAllChildrenAtIndex
                         (column0 (currentIndex w)))
                      (record (LoggerDebug "closeCurrentItem") w))))))).
Proof.
  intros H. unfold closeCurrentItem.
  rewrite (bind_Return _ _ _ _ _ (eq_refl : logger_debug _ _ = (Return tt, _))).
  rewrite (bind_Return _ _ _ _ _
             (_getCurrentItem_run (record _ w) item H)).
  world_simpl.
  assert (H0 : getAt (itemPath (column0 (currentIndex w)))
                 (rootItem (record (LoggerDebug "closeCurrentItem") w))
               = Some item) by (rewrite itemPath_column0; exact H).
  rewrite (bind_Return _ _ _ _ _
             (model_removeAllChildrenAtIndex_run _ _ item H0)).
  world_simpl. rewrite itemPath_column0.
  match goal with
  | |- (item_close ?p ≫= _) ?w2 = _ =>
      assert (H2 : getAt p (rootItem w2) = Some (with_children item []))
        by (world_simpl; eapply getAt_putAt, H);
      rewrite (bind_Return _ _ _ _ _ (item_close_run p w2 _ H2))
  end.
  reflexivity.
Qed.

(** What [closeCurrentItem] leaves behind. *)
Lemma closeCurrentItem_spec (w : World) (item : RepoTreeItem) :
  let index := column0 (currentIndex w) in
  getAt (itemPath index) (rootItem w) = Some item ->
  exists w', closeCurrentItem w = (Return tt, w')
    /\ calls w'
       = calls w ++ [LoggerDebug "closeCurrentItem";
                     ModelRemoveAllChildrenAtIndex index;
                     ItemClose (oid item); ViewCollapse index]
    /\ getAt (itemPath index) (rootItem w') = Some (with_children item [])
    /\ (forall o, o ∈ descendantOids item -> o ∉ openResources w')
    /\ liveDescendants index w' = []
    /\ openResources w' ⊆ openResources w.
Proof.
  cbv zeta. rewrite itemPath_column0. intros H.
  eexists. split; [apply (closeCurrentItem_run w item H)|].
  destruct (setExpandedState_fields (column0 (currentIndex w)) false
    (record (ViewCollapse (column0 (currentIndex w)))
       (with_openResources
          (release [oid item]
             (release (descendantOids item) (openResources w)))
          (record (ItemClose (oid item))
             (with_tree
                (putAt (itemPath (currentIndex w))
                   (with_children item []) (rootItem w))
                (release (descendantOids item) (openResources w))
                (record
                   (ModelRemoveAllChildrenAtIndex
                      (column0 (currentIndex w)))
                   (record (LoggerDebug "closeCurrentItem") w)))))))
    as (Hroot & Hres & _ & _ & _ & Hcalls).
  unfold liveDescendants. rewrite itemPath_column0, Hroot, Hres, Hcalls.
  world_simpl. rewrite (getAt_putAt _ _ _ _ H).
  repeat split.
  - rewrite <- !app_assoc. reflexivity.
  - intros o Ho Hin.
    apply (release_subseteq [oid item]) in Hin.
    exact (not_elem_of_release o _ _ Ho Hin).
  - etransitivity; apply release_subseteq.
Qed.

(** C4. [closeCurrentItem] first removes all children of the current item
    from the model (which releases the resources of all its descendants),
    then closes the item, then collapses the node.  After
    [openCurrentItem] followed by [closeCurrentItem] the current item has
    no descendant in the model and no resource of a former descendant is
    open. *)
Theorem closeCurrentItem_children_first (w : World) (item : RepoTreeItem) :
  let index := column0 (currentIndex w) in
  getAt (itemPath index) (rootItem w) = Some item ->
  (exists w', closeCurrentItem w = (Return tt, w')
     /\ calls w'
        = calls w ++ [LoggerDebug "closeCurrentItem";
                      ModelRemoveAllChildrenAtIndex index;
                      ItemClose (oid item); ViewCollapse index]
     /\ getAt (itemPath index) (rootItem w') = Some (with_children item [])
     /\ (forall o, o ∈ descendantOids item -> o ∉ openResources w')
     /\ liveDescendants index w' = [])
  /\ (exists w', (openCurrentItem;; closeCurrentItem) w = (Return tt, w')
     /\ calls w'
        = calls w ++ [LoggerDebug "openCurrentItem"; ItemOpen (oid item);
                      ViewExpand index;
                      LoggerDebug "closeCurrentItem";
                      ModelRemoveAllChildrenAtIndex index;
                      ItemClose (oid item); ViewCollapse index]
     /\ getAt (itemPath index) (rootItem w') = Some (with_children item [])
     /\ (forall o, o ∈ descendantOids item -> o ∉ openResources w')
     /\ liveDescendants index w' = []).
Proof.
  cbv zeta. intros H. split.
  - destruct (closeCurrentItem_spec w item H)
      as (w' & Hrun & Hcalls & Hget & Hres & Hlive & _).
    exists w'. auto.
  - pose proof H as H'. rewrite itemPath_column0 in H'.
    pose proof (openCurrentItem_run w item H') as Hopen.
    destruct (setExpandedState_fields (column0 (currentIndex w)) true
      (record (ViewExpand (column0 (currentIndex w)))
         (with_openResources ({[oid item]} ∪ openResources w)
            (record (ItemOpen (oid item))
               (record (LoggerDebug "openCurrentItem") w)))))
      as (Hroot & _ & _ & Hcur & _ & Hcalls1).
    world_simpl_in Hroot. world_simpl_in Hcur. world_simpl_in Hcalls1.
    set (w1 := setExpandedState (column0 (currentIndex w)) true _) in *.
    assert (H1 : getAt (itemPath (column0 (currentIndex w1))) (rootItem w1)
                 = Some item) by (rewrite Hcur, Hroot; exact H).
    destruct (closeCurrentItem_spec w1 item H1)
      as (w' & Hrun & Hcalls & Hget & Hres & Hlive & _).
    exists w'. rewrite (bind_Return _ _ _ _ _ Hopen).
    rewrite Hcur in Hcalls, Hget, Hlive.
    repeat split; auto.
    rewrite Hcalls, Hcalls1, <- !app_assoc. reflexivity.
Qed.


(** ** Reloading a file *)

Lemma createFromFileName_run (cls : RtiClass) (name : string) (w : World) :
  createFromFileName cls name w
  = (Return (mkRti (nextOid w) cls name None []),
     with_nextOid (S (nextOid w)) (record (RtiCreateFromFileName cls name) w)).
Proof. reflexivity. Qed.

Lemma view_setExpanded_run (index : QModelIndex) (b : bool) (w : World) :
  view_setExpanded index b w
  = (Return tt, setExpandedState index b (record (ViewSetExpanded index b) w)).
Proof. reflexivity. Qed.

(** Loading an item that has no parent, at a position that exists. *)
Lemma loadRepoTreeItem_there (item : RepoTreeItem) (expand : bool)
    (pos : nat) (parentIndex : QModelIndex) (w : World)
    (parentNode : RepoTreeItem) :
  parentItem item = None ->
  getAt (itemPath parentIndex) (rootItem w) = Some parentNode ->
  (pos <= length (childItems parentNode))%nat ->
  loadRepoTreeItem item expand (Some pos) parentIndex w
  = (Return (childIndex parentIndex pos),
     setExpandedState (childIndex parentIndex pos) expand
       (record (ViewSetExpanded (childIndex parentIndex pos) expand)
          (with_tree
             (putAt (itemPath parentIndex)
                (with_children parentNode
                   (take pos (childItems parentNode)
                    ++ with_parent item (Some (oid parentNode))
                    :: drop pos (childItems parentNode)))
                (rootItem w))
             (openResources w)
             (record (ModelInsertItem (oid item) (Some pos) parentIndex) w)))).
Proof.
  intros Hnone Hp Hpos. rewrite loadRepoTreeItem_run, Hnone.
  rewrite (bind_Return _ _ _ _ _
             (model_insertItem_run item pos parentIndex w parentNode Hp Hpos)).
  reflexivity.
Qed.

(** Removing the node at row [k] below [parentNode] and loading a new node
    there. *)
Lemma remove_then_load_run (w : World) anc k c
    (parentNode old : RepoTreeItem) (cls : RtiClass) (name : string) :
  getAt (rev anc) (rootItem w) = Some parentNode ->
  childItems parentNode !! k = Some old ->
  let fresh := mkRti (nextOid w) cls name (Some (oid parentNode)) [] in
  remove_then_load (ModelIndex anc k c) cls name w
  = (Return (ModelIndex anc k 0),
     mkWorld
       (putAt (rev anc)
          (with_children parentNode (<[k := fresh]> (childItems parentNode)))
          (rootItem w))
       (release (subtreeOids old) (openResources w))
       (S (nextOid w))
       (ModelIndex anc k 0)
       [RowRange anc k]
       ({[nextOid w]} ∪ expandedItems w)
       (calls w ++ [ModelDeleteItemByIndex (ModelIndex anc k c);
                    RtiCreateFromFileName cls name;
                    ModelInsertItem (nextOid w) (Some k)
                      (parent (ModelIndex anc k c));
                    ViewSetExpanded (ModelIndex anc k 0) true;
                    SelectionSetCurrentIndex (ModelIndex anc k 0)
                      (Z.lor ClearAndSelect Rows)])).
Proof.
  intros Hp Hk. cbv zeta. unfold remove_then_load.
  rewrite (bind_Return _ _ _ _ _
             (model_deleteItemByIndex_run anc k c w parentNode old Hp Hk)).
  rewrite (bind_Return _ _ _ _ _ (createFromFileName_run cls name _)).
  world_simpl.
  change (Z.to_nat (row (ModelIndex anc k c))) with (Z.to_nat (Z.of_nat k)).
  rewrite Nat2Z.id.
  match goal with
  | |- (loadRepoTreeItem ?it _ _ ?pi ≫= _) ?w2 = _ =>
      assert (Hp2 : getAt (itemPath pi) (rootItem w2)
                    = Some (with_children parentNode
                              (delete k (childItems parentNode))))
        by (world_simpl; rewrite itemPath_parent; eapply getAt_putAt, Hp);
      rewrite (bind_Return _ _ _ _ _
                 (loadRepoTreeItem_there it true k pi w2 _ eq_refl Hp2
                    (length_delete_lt _ _ _ Hk)))
  end.
  world_simpl. cbn [childItems with_children with_parent oid rtiClass fileName].
  rewrite (take_drop_delete _ _ _ _ Hk), itemPath_parent, childIndex_parent.
  rewrite (putAt_putAt _ _ _ _ _ Hp).
  erewrite setExpandedState_there; [|reflexivity|].
  2:{ world_simpl. rewrite itemPath_ModelIndex.
      eapply getAt_putAt_child; [exact Hp|].
      cbn [childItems with_children].
      apply list_lookup_insert_eq. eapply lookup_lt_Some, Hk. }
  rewrite (bind_Return _ _ _ _ _ (setCurrentIndex_run _ _)).
  unfold mret, Prog_ret. f_equal.
  apply World_eq; world_simpl; try reflexivity.
  rewrite <- !app_assoc. reflexivity.
Qed.

Lemma getAt_child (p : list nat) (k : nat) (t node x : RepoTreeItem) :
  getAt p t = Some node -> childItems node !! k = Some x ->
  getAt (p ++ [k]) t = Some x.
Proof.
  intros Hp Hk. rewrite getAt_app, Hp. cbn. rewrite Hk. reflexivity.
Qed.

(** [reloadFileOfCurrentItem] is [remove_then_load] on the file node found
    for the current item. *)
Lemma reloadFileOfCurrentItem_remove_then_load
    (findFileRtiIndex : RepoTreeItem -> QModelIndex -> QModelIndex)
    (w : World) anc k c (parentNode old : RepoTreeItem) :
  findFileRtiIndex (rootItem w) (column0 (currentIndex w)) = ModelIndex anc k c ->
  getAt (rev anc) (rootItem w) = Some parentNode ->
  childItems parentNode !! k = Some old ->
  reloadFileOfCurrentItem findFileRtiIndex w
  = remove_then_load (ModelIndex anc k c) (rtiClass old) (fileName old)
      (record (LoggerDebug "reloadFileOfCurrentItem") w).
Proof.
  intros Hf Hp Hk. unfold reloadFileOfCurrentItem.
  rewrite (bind_Return _ _ _ _ _ (eq_refl : logger_debug _ _ = (Return tt, _))).
  rewrite (bind_Return _ _ _ _ _ (_getCurrentIndex_run _)).
  rewrite (bind_Return _ _ _ _ _
             (eq_refl : model_findFileRtiIndex _ _ _ = (Return _, _))).
  world_simpl. rewrite Hf.
  pose proof (getAt_child _ _ _ _ _ Hp Hk) as Hold.
  rewrite <- (itemPath_ModelIndex anc k c) in Hold.
  assert (Hget : model_getItem (ModelIndex anc k c)
                   (record (LoggerDebug "reloadFileOfCurrentItem") w)
                 = (Return (itemPath (ModelIndex anc k c)), record _ w))
    by (unfold model_getItem; world_simpl; rewrite Hold; reflexivity).
  rewrite (bind_Return _ _ _ _ _ Hget).
  unfold item_fileName, item_type, item_childNumber.
  rewrite (bind_Return _ _ _ _ _ (item_attr_run _ _ (record _ w) old Hold)).
  rewrite (bind_Return _ _ _ _ _ (item_attr_run _ _ (record _ w) old Hold)).
  rewrite (bind_Return _ _ _ _ _ (item_attr_run _ _ (record _ w) old Hold)).
  rewrite itemPath_ModelIndex, last_snoc. cbn [default].
  unfold remove_then_load.
  change (Z.to_nat (row (ModelIndex anc k c))) with (Z.to_nat (Z.of_nat k)).
  rewrite Nat2Z.id. reflexivity.
Qed.

(** C2. When the file node found for the current item is the child at
    row [k] of [parentNode], [reloadFileOfCurrentItem] is the removal of
    that node followed by the loading of a newly constructed node of the
    same class for the same file at row [k] under the same parent
    ([remove_then_load]).  It returns the index at row [k] under that
    parent; the parent's children are the old ones with the one at row
    [k] replaced by the new node, so the new node is at the position of the
    old one; the resources of the old node are released; and the new node
    is the current and the selected one. *)
Theorem reloadFileOfCurrentItem_same_position
    (findFileRtiIndex : RepoTreeItem -> QModelIndex -> QModelIndex)
    (w : World) anc k c (parentNode old : RepoTreeItem) :
  findFileRtiIndex (rootItem w) (column0 (currentIndex w)) = ModelIndex anc k c ->
  getAt (rev anc) (rootItem w) = Some parentNode ->
  childItems parentNode !! k = Some old ->
  let fileRtiIndex := ModelIndex anc k c in
  let newRtiIndex := ModelIndex anc k 0 in
  let fresh :=
    mkRti (nextOid w) (rtiClass old) (fileName old) (Some (oid parentNode)) [] in
  reloadFileOfCurrentItem findFileRtiIndex w
  = remove_then_load fileRtiIndex (rtiClass old) (fileName old)
      (record (LoggerDebug "reloadFileOfCurrentItem") w)
  /\ exists w',
       reloadFileOfCurrentItem findFileRtiIndex w = (Return newRtiIndex, w')
       /\ rootItem w'
          = putAt (itemPath (parent fileRtiIndex))
              (with_children parentNode
                 (<[k := fresh]> (childItems parentNode)))
              (rootItem w)
       /\ getAt (itemPath (parent newRtiIndex)) (rootItem w')
          = Some (with_children parentNode
                    (<[k := fresh]> (childItems parentNode)))
       /\ getAt (itemPath newRtiIndex) (rootItem w') = Some fresh
       /\ row newRtiIndex = row fileRtiIndex
       /\ parent newRtiIndex = parent fileRtiIndex
       /\ openResources w' = release (subtreeOids old) (openResources w)
       /\ currentIndex w' = newRtiIndex
       /\ selection w' = rowOf newRtiIndex
       /\ _getCurrentIndex w' = (Return newRtiIndex, w').
Proof.
  intros Hf Hp Hk. cbv zeta.
  rewrite (reloadFileOfCurrentItem_remove_then_load _ w anc k c _ _ Hf Hp Hk).
  split; [reflexivity|].
  eexists. split.
  { apply (remove_then_load_run
             (record (LoggerDebug "reloadFileOfCurrentItem") w)
             anc k c parentNode old _ _ Hp Hk). }
  rewrite _getCurrentIndex_run.
  cbn [rootItem openResources currentIndex selection record column0 rowOf].
  rewrite !itemPath_parent.
  assert (Hk' : <[k := mkRti (nextOid w) (rtiClass old) (fileName old)
                        (Some (oid parentNode)) []]> (childItems parentNode)
                !! k
                = Some (mkRti (nextOid w) (rtiClass old) (fileName old)
                          (Some (oid parentNode)) []))
    by (apply list_lookup_insert_eq; eapply lookup_lt_Some, Hk).
  cbn [nextOid record].
  repeat split.
  - eapply getAt_putAt, Hp.
  - rewrite itemPath_ModelIndex.
    eapply getAt_putAt_child; [exact Hp|exact Hk'].
Qed.


(** ** A repository with two files

    [a.nc] holds a group with one array and a second array; [b.txt] holds
    nothing.  The file [a.nc] and its first array are open, and the current
    index is the name column's neighbour of that array. *)

Local Open Scope string_scope.
Local Open Scope nat_scope.

Definition example_array (o : Oid) (p : Oid) : RepoTreeItem :=
  mkRti o "ArrayRti" "a.nc" (Some p) [].

Definition example_file : RepoTreeItem :=
  mkRti 1 "NcdfFileRti" "a.nc" (Some 0)
    [mkRti 2 "GroupRti" "a.nc" (Some 1) [example_array 3 2];
     example_array 4 1].

Definition example_world : World :=
  mkWorld
    (mkRti 0 "RootRti" "" None
       [example_file; mkRti 5 "TextFileRti" "b.txt" (Some 0) []])
    {[1; 3]} 6 (ModelIndex [0; 0] 0 1) [] ∅ [].

(** The reload of [a.nc] from its array returns the index of the first
    top-level row. *)
Lemma reloadFileOfCurrentItem_same_position_witness :
  fst (reloadFileOfCurrentItem (fun _ i => findTopLevelItemIndex i)
         example_world)
  = Return (ModelIndex [] 0 0).
Proof.
  destruct (reloadFileOfCurrentItem_same_position
              (fun _ i => findTopLevelItemIndex i) example_world [] 0 0
              (rootItem example_world) example_file
              eq_refl eq_refl eq_refl)
    as (_ & w' & Hrun & _).
  rewrite Hrun. reflexivity.
Defined.

(** Opening and closing [a.nc] leaves none of its descendants open. *)
Lemma closeCurrentItem_children_first_witness :
  liveDescendants (ModelIndex [] 0 0)
    (snd ((openCurrentItem;; closeCurrentItem)
            (with_currentIndex (ModelIndex [] 0 1) example_world)))
  = [].
Proof.
  destruct (closeCurrentItem_children_first
              (with_currentIndex (ModelIndex [] 0 1) example_world)
              example_file eq_refl)
    as (_ & w' & Hrun & _ & _ & _ & Hlive).
  rewrite Hrun. exact Hlive.
Defined.

(** From the array in the group and from the second array, the same file
    is removed. *)
Lemma removeCurrentFile_top_level_witness :
  rootItem
    (snd (removeCurrentFile
            (with_currentIndex (ModelIndex [0; 0] 0 1) example_world)))
  = rootItem
      (snd (removeCurrentFile
              (with_currentIndex (ModelIndex [0] 1 0) example_world))).
Proof.
  destruct (removeCurrentFile_top_level example_world 0 example_file
              (ModelIndex [0; 0] 0 1) (ModelIndex [0] 1 0)
              eq_refl eq_refl eq_refl)
    as (Hi & Hj & Hroot & _).
  rewrite Hi, Hj. exact Hroot.
Defined.

Local Close Scope nat_scope.

End RepoProperties.

(** * Preconditions of the delegate and of the repository view *)

Section Preconditions.
Import Qt.
Context {M Cti Value Editor : Type}.
Context `{!ConfigTreeView.ConfigTreeModel M Cti Value}.
Context `{!ConfigTreeView.ConfigTreeItem Cti Value Editor}.

(** C7. [createEditor] with an invalid index raises the assertion error
    after its debug message and before any node is retrieved from the
    model; with a valid index it retrieves the node and returns what the
    node's [createEditor] gives.  [loadRepoTreeItem] with an item that has
    a parent raises the assertion error and leaves the world as it is; with
    an item without parent it inserts the item and sets its expansion, and
    no assertion error is raised. *)
Theorem preconditions_fail_fast
    (parentWidget : QWidget) (opt : QStyleOptionViewItem)
    (index : QModelIndex) (cw : ConfigTreeView.World M Cti Value Editor)
    (repoTreeItem : RepoTreeView.RepoTreeItem) (expand : bool)
    (position : option nat) (parentIndex : QModelIndex)
    (rw : RepoTreeView.World) :
  let entered :=
    ConfigTreeView.record
      (ConfigTreeView.LoggerDebug
         "ConfigItemDelegate.createEditor, parent: {!r}") cw in
  let cti := ConfigTreeView.getItem (ConfigTreeView.model cw) index in
  ConfigTreeView.delegate_createEditor parentWidget opt index cw
  = (if isValid index then
       (ConfigTreeView.createEditor cti parentWidget opt,
        ConfigTreeView.record
          (ConfigTreeView.CtiCreateEditor cti parentWidget opt)
          (ConfigTreeView.record (ConfigTreeView.ModelGetItem index) entered))
     else
       (Raise (AssertionError "sanity check failed: invalid index"), entered))
  /\ ConfigTreeView.getItem_calls (ConfigTreeView.calls entered)
     = ConfigTreeView.getItem_calls (ConfigTreeView.calls cw)
  /\ RepoTreeView.loadRepoTreeItem repoTreeItem expand position parentIndex rw
     = match RepoTreeView.parentItem repoTreeItem with
       | Some _ => (Raise (AssertionError "repoTreeItem {!r}"), rw)
       | None =>
           (storeRootIndex ←
              RepoTreeView.model_insertItem repoTreeItem position parentIndex;
            RepoTreeView.view_setExpanded storeRootIndex expand;;
            mret storeRootIndex) rw
       end
  /\ (RepoTreeView.parentItem repoTreeItem = None ->
      forall msg,
        fst (RepoTreeView.loadRepoTreeItem repoTreeItem expand position
               parentIndex rw)
        <> Raise (AssertionError msg)).
Proof.
  cbv zeta. split; [apply delegate_createEditor_run|].
  split.
  { unfold ConfigTreeView.getItem_calls, ConfigTreeView.record. cbn.
    rewrite omap_app. cbn. apply app_nil_r. }
  split; [apply loadRepoTreeItem_run|].
  intros Hnone msg. rewrite loadRepoTreeItem_run, Hnone.
  pose proof (model_insertItem_outcome repoTreeItem position parentIndex rw msg)
    as Hins.
  unfold mbind, Prog_bind.
  destruct (RepoTreeView.model_insertItem _ _ _ rw) as [[idx|e] rw'];
    [discriminate|exact Hins].
Qed.

End Preconditions.

(** An item that is in the tree is refused and the world is left as it is;
    a new item is loaded without an assertion error. *)
Lemma preconditions_fail_fast_witness :
  RepoTreeView.loadRepoTreeItem example_file false None Qt.InvalidIndex
    example_world
  = (Raise (AssertionError "repoTreeItem {!r}"), example_world)
  /\ fst (RepoTreeView.loadRepoTreeItem
            (RepoTreeView.mkRti 6%nat "TextFileRti"%string "c.txt" None [])
            false None Qt.InvalidIndex example_world)
     <> Raise (AssertionError "repoTreeItem {!r}").
Proof.
  destruct (@preconditions_fail_fast (list Z) nat Z SpinBox
              example_model example_item
              0%nat 0%nat Qt.InvalidIndex example_config
              example_file false None Qt.InvalidIndex example_world)
    as (_ & _ & Hrefused & _).
  destruct (@preconditions_fail_fast (list Z) nat Z SpinBox
              example_model example_item
              0%nat 0%nat Qt.InvalidIndex example_config
              (RepoTreeView.mkRti 6%nat "TextFileRti"%string "c.txt" None [])
              false None Qt.InvalidIndex example_world)
    as (_ & _ & _ & Hloaded).
  split; [exact Hrefused | exact (Hloaded eq_refl _)].
Defined.

(** * Further properties of [libargos/utils/misc.py] *)

Section MiscFurther.
Import Misc MiscArgs.

(** X1. [remove_process_serial_number] returns the arguments that do not
    start with [-psn_0_], all of them and no other, in the order they had. *)
Theorem remove_process_serial_number_keeps (arg_list : list string) :
  (forall arg,
     In arg (remove_process_serial_number arg_list)
     <-> In arg arg_list /\ String.prefix "-psn_0_" arg = false)
  /\ sublist (remove_process_serial_number arg_list) arg_list.
Proof.
  unfold remove_process_serial_number. split.
  - intros arg. rewrite filter_In, negb_true_iff. reflexivity.
  - induction arg_list as [|a l IH]; [constructor|].
    cbn [List.filter]. destruct (negb _); constructor; exact IH.
Qed.

(** X2. Removing the process serial numbers a second time changes nothing;
    the removal goes through the concatenation of argument lists; and the
    list is returned as it is exactly when no argument starts with
    [-psn_0_]. *)
Theorem remove_process_serial_number_again (arg_list more : list string) :
  remove_process_serial_number (remove_process_serial_number arg_list)
  = remove_process_serial_number arg_list
  /\ remove_process_serial_number (arg_list ++ more)
     = remove_process_serial_number arg_list
       ++ remove_process_serial_number more
  /\ (remove_process_serial_number arg_list = arg_list
      <-> forall arg, In arg arg_list -> String.prefix "-psn_0_" arg = false).
Proof.
  unfold remove_process_serial_number.
  set (keep := fun arg : string => negb (String.prefix "-psn_0_" arg)).
  assert (Hfix : forall l : list string,
            (forall a, In a l -> keep a = true) -> List.filter keep l = l).
  { induction l as [|a l IH]; intros H; [reflexivity|].
    cbn [List.filter]. rewrite (H a (or_introl eq_refl)).
    f_equal. apply IH. intros b Hb. apply H. right. exact Hb. }
  repeat split.
  - apply Hfix. intros a Ha. apply filter_In in Ha. tauto.
  - apply List.filter_app.
  - intros Heq arg Harg. rewrite <- Heq in Harg.
    apply filter_In in Harg. destruct Harg as [_ Hk].
    unfold keep in Hk. apply negb_true_iff in Hk. exact Hk.
  - intros H. apply Hfix. intros a Ha. unfold keep.
    rewrite (H a Ha). reflexivity.
Qed.

Lemma identifier_of_length (s : string) : forall b,
  (String.length (identifier_of b s) <= String.length s)%nat.
Proof.
  induction s as [|c r IH]; intros b; [reflexivity|].
  cbn [identifier_of String.length].
  destruct (is_space c).
  { destruct b; cbn [String.length];
      [pose proof (IH true) | pose proof (IH true)]; lia. }
  destruct (is_hyphen c).
  { cbn [String.length]. pose proof (IH false). lia. }
  destruct (is_word c); cbn [String.length]; pose proof (IH false); lia.
Qed.

(** X3. The identifier is never longer than the string it is made from. *)
Theorem string_to_identifier_length (s : string) :
  (String.length (string_to_identifier s) <= String.length s)%nat.
Proof.
  unfold string_to_identifier. rewrite substitutions_identifier_of.
  apply identifier_of_length.
Qed.

(** X4. The strings [string_to_identifier] returns as they are, are exactly
    the strings made of lowercase letters, digits and underscores. *)
Theorem string_to_identifier_fixed_points (s : string) :
  string_to_identifier s = s <-> all_chars is_identifier_char s = true.
Proof.
  unfold string_to_identifier. rewrite substitutions_identifier_of. split.
  - intros H. rewrite <- H. apply identifier_of_chars.
  - intros H. apply identifier_of_fixed, H.
Qed.

Lemma identifier_of_append (s t : string) (c : ascii) :
  is_space c = false ->
  forall b,
    identifier_of b (String.append s (String c t))
    = String.append (identifier_of b s) (identifier_of false (String c t)).
Proof.
  intros Hc. induction s as [|a r IH]; intros b.
  - rewrite !append_Empty. cbn [identifier_of]. rewrite Hc. reflexivity.
  - rewrite append_String. cbn [identifier_of].
    destruct (is_space a).
    { destruct b; rewrite IH, ?append_String; reflexivity. }
    destruct (is_hyphen a); [rewrite IH, ?append_String; reflexivity|].
    destruct (is_word a); rewrite IH, ?append_String; reflexivity.
Qed.

(** X5. The identifier of two strings put together is the two identifiers
    put together, when the second string does not start with whitespace. *)
Theorem string_to_identifier_append (s t : string) (c : ascii) :
  is_space c = false ->
  string_to_identifier (String.append s (String c t))
  = String.append (string_to_identifier s) (string_to_identifier (String c t)).
Proof.
  intros Hc. unfold string_to_identifier.
  rewrite !substitutions_identifier_of. apply identifier_of_append, Hc.
Qed.

(** The words of a name are joined; whitespace on both sides of the joint
    would give one underscore, not two. *)
Lemma string_to_identifier_append_witness :
  string_to_identifier (String.append "Array " "Size-x")
  = String.append (string_to_identifier "Array ")
      (string_to_identifier "Size-x")
  /\ string_to_identifier (String.append "a " " b") = "a_b"%string.
Proof.
  split; [|reflexivity].
  exact (string_to_identifier_append "Array " "ize-x" "S" eq_refl).
Defined.

Lemma prefix_point_inv (s : string) :
  String.prefix "." s = true -> exists r, s = String "." r.
Proof.
  destruct s as [|c r]; [discriminate|].
  destruct (ascii_dec c "."%char) as [->|Hne]; [eauto|].
  rewrite (prefix_point_no c r Hne). discriminate.
Qed.

(** X6. Two extensions get the same result exactly when they are the same
    or one is the other with its point in front. *)
Theorem prepend_point_to_extension_same (a b : string) :
  prepend_point_to_extension a = prepend_point_to_extension b
  <-> a = b
      \/ (a = String "." b /\ String.prefix "." b = false)
      \/ (b = String "." a /\ String.prefix "." a = false).
Proof.
  unfold prepend_point_to_extension.
  destruct (String.prefix "." a) eqn:Ha, (String.prefix "." b) eqn:Hb.
  - split; [auto|]. intros [H|[[_ H]|[_ H]]]; congruence.
  - split.
    + intros H. right. left. split; [exact H|reflexivity].
    + intros [H|[[H _]|[_ H]]]; [congruence|exact H|discriminate].
  - split.
    + intros H. right. right. split; [symmetry; exact H|reflexivity].
    + intros [H|[[_ H]|[H _]]]; [congruence|discriminate|symmetry; exact H].
  - split.
    + intros H. left. injection H. auto.
    + intros [H|[[H _]|[H _]]].
      * congruence.
      * subst a. rewrite prefix_point_yes in Ha. discriminate.
      * subst b. rewrite prefix_point_yes in Hb. discriminate.
Qed.

Lemma lower_char_again (c : ascii) : lower_char (lower_char c) = lower_char c.
Proof. destruct c as [[] [] [] [] [] [] [] []]; reflexivity. Qed.

Lemma lower_again (s : string) : lower (lower s) = lower s.
Proof.
  induction s as [|c r IH]; [reflexivity|].
  cbn [lower]. rewrite lower_char_again, IH. reflexivity.
Qed.

(** X16. The identifier does not depend on the case of the letters: the
    lowered string has the identifier of the string. *)
Theorem string_to_identifier_lower (s : string) :
  string_to_identifier (lower s) = string_to_identifier s.
Proof. unfold string_to_identifier. rewrite lower_again. reflexivity. Qed.

End MiscFurther.

(** * Further properties of [libargos/widgets/configtreeview.py] *)

Section ConfigFurther.
Import Qt ConfigTreeView ConfigEditing.
Context {M Cti Value Editor : Type}.
Context `{!ConfigTreeModel M Cti Value} `{!ConfigTreeItem Cti Value Editor}.
Context `{!ConfigTreeItemEditing Cti Value Editor}.

Local Abbreviation World := (World M Cti Value Editor).

Lemma setData_calls_record (c : Call Cti Value Editor) (w : World) :
  (forall i v r, c <> ModelSetData i v r) ->
  setData_calls (calls (record c w)) = setData_calls (calls w).
Proof.
  intros Hc. unfold setData_calls, record. cbn [calls].
  rewrite omap_app. cbn [omap].
  destruct c; try apply app_nil_r.
  exfalso. eapply Hc. reflexivity.
Qed.

(** A world reached by calls that read. *)
Definition untouched (w w' : World) : Prop :=
  model w' = model w /\ setData_calls (calls w') = setData_calls (calls w).

Lemma untouched_refl (w : World) : untouched w w.
Proof. split; reflexivity. Qed.

Lemma untouched_record (c : Call Cti Value Editor) (w w' : World) :
  (forall i v r, c <> ModelSetData i v r) ->
  untouched w w' -> untouched w (record c w').
Proof.
  intros Hc [Hm Hs]. split; [exact Hm|].
  rewrite (setData_calls_record c w' Hc). exact Hs.
Qed.

(** X7. Of the delegate's and the view's methods only [setModelData]
    writes: [paint], [createEditor], [setEditorData], [finalizeEditor] and
    [closeEditor] leave the model as it is and make no [setData] call,
    whatever the index, the editor and the answers of the node. *)
Theorem delegate_reads_leave_model (painter : QPainter)
    (opt : QStyleOptionViewItem) (parentWidget : QWidget) (editor : Editor)
    (hint : EndEditHint) (index : QModelIndex) (w : World) :
  untouched w (snd (paint painter opt index w))
  /\ untouched w (snd (delegate_createEditor parentWidget opt index w))
  /\ untouched w (snd (setEditorData editor index w))
  /\ untouched w (snd (finalizeEditor editor w))
  /\ untouched w (snd (closeEditor editor hint w)).
Proof.
  assert (Hfin : untouched w (snd (finalizeEditor editor w))).
  { rewrite finalizeEditor_run. cbn [snd].
    apply untouched_record; [|apply untouched_refl].
    destruct (isCtiEditor editor); discriminate. }
  split; [|split; [|split; [|split]]].
  - unfold paint. run_prog.
    destruct (column index =? COL_VALUE); cbn.
    + destruct (paintDisplayValue _ _ _ _); cbn;
        repeat (apply untouched_record; [discriminate|]);
        apply untouched_refl.
    + apply untouched_record; [discriminate|]. apply untouched_refl.
  - rewrite delegate_createEditor_run. cbv zeta.
    destruct (isValid index); cbn [snd];
      repeat (apply untouched_record; [discriminate|]);
      apply untouched_refl.
  - unfold setEditorData. run_prog.
    repeat (apply untouched_record; [discriminate|]). apply untouched_refl.
  - apply Hfin.
  - unfold closeEditor. run_prog. rewrite finalizeEditor_run. cbn.
    repeat (apply untouched_record;
            [destruct (isCtiEditor editor); discriminate|]).
    apply untouched_refl.
Qed.

(** X8. An exception of [getEditorValue] that is no [InvalidInputError] is
    not caught by [setModelData]: it is raised to the caller, no warning is
    logged and the model is not written. *)
Theorem setModelData_other_exception (editor : Editor) (index : QModelIndex)
    (w : World) (e : Exn) :
  getEditorValue (getItem (model w) index) editor = Raise e ->
  (forall msg, e <> InvalidInputError msg) ->
  setModelData editor index w
  = (Raise e,
     mkWorld (model w)
       (calls w ++ [LoggerDebug "ConfigItemDelegate.setModelData: editor {}";
                    ModelGetItem index;
                    CtiGetEditorValue (getItem (model w) index) editor])).
Proof.
  intros Hraise Hother. unfold setModelData. run_prog. rewrite Hraise.
  unfold record. cbn. rewrite <- !app_assoc. cbn.
  destruct e; try reflexivity.
  exfalso. eapply Hother. reflexivity.
Qed.

(** X9. Filling an editor from the model and committing it untouched: when
    the node reads back from an editor the value it has put there,
    [setEditorData] followed by [setModelData] makes exactly one [setData]
    call, with the value the model already has at the index. *)
Theorem setEditorData_then_setModelData (editor : Editor)
    (index : QModelIndex) (w : World) :
  let cti := getItem (model w) index in
  let value := data (model w) index EditRole in
  getEditorValue cti (setEditorValue cti editor value) = Return value ->
  exists w',
    (filled ← setEditorData editor index; setModelData filled index) w
    = (Return tt, w')
    /\ model w' = setData (model w) index value EditRole
    /\ setData_calls (calls w')
       = setData_calls (calls w) ++ [(index, value, EditRole)].
Proof.
  cbv zeta. intros Hback. eexists. split.
  - unfold setEditorData, setModelData. run_prog. rewrite Hback. reflexivity.
  - cbn. split; [reflexivity|].
    unfold setData_calls. rewrite !omap_app. cbn.
    rewrite !app_nil_r. reflexivity.
Qed.

End ConfigFurther.

(** ** Witnesses on the configuration with integer values *)

(** A node whose editor has gone reports another error than invalid
    input. *)
Definition failing_item
    : ConfigTreeView.ConfigTreeItem nat Z SpinBox := {|
  ConfigTreeView.paintDisplayValue cti painter opt v := false;
  ConfigTreeView.createEditor cti parent opt :=
    Raise (LookupError "no editor");
  ConfigTreeView.getEditorValue cti editor :=
    Raise (LookupError "the editor is gone");
  ConfigTreeView.isCtiEditor := wrapped;
|}.

(** A spin box shows the value it is given. *)
Definition example_editing
    : ConfigEditing.ConfigTreeItemEditing nat Z SpinBox := {|
  ConfigEditing.setEditorValue cti editor v := mkSpinBox (Some v) (wrapped editor);
|}.

Lemma setModelData_other_exception_witness :
  fst (@ConfigTreeView.setModelData (list Z) nat Z SpinBox example_model
         failing_item (mkSpinBox None true) (Qt.ModelIndex [] 1 1)
         example_config)
  = Raise (LookupError "the editor is gone").
Proof.
  rewrite (@setModelData_other_exception (list Z) nat Z SpinBox example_model
             failing_item (mkSpinBox None true) (Qt.ModelIndex [] 1 1)
             example_config (LookupError "the editor is gone") eq_refl
             ltac:(discriminate)).
  reflexivity.
Defined.

Lemma setEditorData_then_setModelData_witness :
  ConfigTreeView.model
    (snd ((filled ← @ConfigEditing.setEditorData (list Z) nat Z SpinBox
                      example_model example_editing (mkSpinBox None true)
                      (Qt.ModelIndex [] 1 1);
           @ConfigTreeView.setModelData (list Z) nat Z SpinBox example_model
             example_item filled (Qt.ModelIndex [] 1 1))
            example_config))
  = [10; 20; 30].
Proof.
  destruct (@setEditorData_then_setModelData (list Z) nat Z SpinBox
              example_model example_item example_editing
              (mkSpinBox None true) (Qt.ModelIndex [] 1 1) example_config
              eq_refl)
    as (w' & Hrun & Hmodel & _).
  rewrite Hrun. exact Hmodel.
Defined.

(** * Properties of the header menus *)

Section HeaderMenuProperties.
Import HeaderMenus.

Lemma foldl_insert_lookup (names : list string) (v : bool) (k : string) :
  forall d : gmap string bool,
    foldl (fun d name => <[name := v]> d) d names !! k
    = if bool_decide (k ∈ names) then Some v else d !! k.
Proof.
  induction names as [|a l IH]; intros d.
  - cbn. rewrite bool_decide_eq_false_2; [reflexivity|].
    apply not_elem_of_nil.
  - cbn [foldl]. rewrite IH.
    destruct (decide (k ∈ l)) as [Hin|Hnin].
    + rewrite !bool_decide_eq_true_2; [reflexivity| |exact Hin].
      right. exact Hin.
    + rewrite (bool_decide_eq_false_2 _ Hnin).
      destruct (decide (k = a)) as [->|Hne].
      * rewrite bool_decide_eq_true_2 by left.
        apply lookup_insert_eq.
      * rewrite bool_decide_eq_false_2.
        { apply lookup_insert_ne. congruence. }
        intros [?|?]%elem_of_cons; contradiction.
Qed.

Lemma dict_of_names_lookup (names : list string) (v : bool) (k : string) :
  dict_of_names names v !! k
  = if bool_decide (k ∈ names) then Some v else None.
Proof.
  unfold dict_of_names. rewrite foldl_insert_lookup, lookup_empty.
  reflexivity.
Qed.

Lemma list_getitem_elem_of {A} (l : list A) (i : Z) (x : A) :
  list_getitem l i = Return x -> x ∈ l.
Proof.
  unfold list_getitem. cbv zeta.
  destruct (_ && _); [|discriminate].
  destruct (l !! _) as [y|] eqn:Hy; [|discriminate].
  intros [= <-]. eapply list_elem_of_lookup_2, Hy.
Qed.

Lemma list_getitem_in_range {A} (l : list A) (i : Z) :
  index_in_range l i <-> exists x, list_getitem l i = Return x.
Proof.
  unfold index_in_range, list_getitem. cbv zeta.
  set (n := Z.of_nat (length l)).
  set (j := if i <? 0 then i + n else i).
  assert (Hj : - n <= i < n <-> 0 <= j < n)
    by (unfold j; destruct (Z.ltb_spec i 0); lia).
  rewrite Hj. split.
  - intros Hr.
    replace ((0 <=? j) && (j <? n)) with true
      by (symmetry; apply andb_true_iff; split;
          [apply Z.leb_le|apply Z.ltb_lt]; lia).
    destruct (lookup_lt_is_Some_2 l (Z.to_nat j)) as [x Hx]; [unfold n in Hr; lia|].
    rewrite Hx. eauto.
  - intros [x Hx].
    destruct ((0 <=? j) && (j <? n)) eqn:E; [|discriminate].
    apply andb_true_iff in E as [E1 E2].
    apply Z.leb_le in E1. apply Z.ltb_lt in E2. lia.
Qed.

Lemma list_getitem_out_of_range {A} (l : list A) (i : Z) :
  ~ index_in_range l i ->
  list_getitem l i = Raise (LookupError "list index out of range").
Proof.
  intros Hout. unfold list_getitem. cbv zeta.
  destruct (_ && _) eqn:E; [|reflexivity].
  destruct (l !! _) eqn:Hx; [|reflexivity].
  exfalso. apply Hout, list_getitem_in_range.
  unfold list_getitem. cbv zeta. rewrite E, Hx. eauto.
Qed.

(** X10. When the headers have the name column and the value column, the
    configuration view's header menu has an entry for every header name and
    for nothing else; the names of these two columns are checked and not
    enabled (shown, and they cannot be unchecked), and every other name is
    enabled and not checked. *)
Theorem config_header_menu_flags (headerNames : list string)
    (COL_NODE_NAME COL_VALUE : Z) (nodeName value : string) :
  list_getitem headerNames COL_NODE_NAME = Return nodeName ->
  list_getitem headerNames COL_VALUE = Return value ->
  exists checked enabled,
    config_header_menu headerNames COL_NODE_NAME COL_VALUE
    = Return (checked, enabled)
    /\ forall name,
         enabled !! name
         = (if bool_decide (name ∈ headerNames)
            then Some (negb (bool_decide (name = nodeName \/ name = value)))
            else None)
         /\ checked !! name = negb <$> enabled !! name.
Proof.
  intros Hn Hv. unfold config_header_menu. cbv zeta.
  rewrite Hn, Hv. cbn [mbind Outcome_bind mret Outcome_ret].
  do 2 eexists. split; [reflexivity|].
  pose proof (list_getitem_elem_of _ _ _ Hn) as Hin1.
  pose proof (list_getitem_elem_of _ _ _ Hv) as Hin2.
  intros name.
  rewrite !lookup_insert, !dict_of_names_lookup.
  destruct (decide (value = name)) as [<-|Hne2].
  - rewrite !bool_decide_eq_true_2 by auto. split; reflexivity.
  - destruct (decide (nodeName = name)) as [<-|Hne1].
    + rewrite !bool_decide_eq_true_2 by auto. split; reflexivity.
    + rewrite (bool_decide_eq_false_2 (name = nodeName \/ name = value))
        by (intros [?|?]; congruence).
      destruct (bool_decide (name ∈ headerNames)); split; reflexivity.
Qed.

(** X11. The constructor of the configuration view gets its header menu
    exactly when both column numbers are numbers of a header
    ([-len <= column < len]); otherwise the lookup of the header name
    raises. *)
Theorem config_header_menu_columns (headerNames : list string)
    (COL_NODE_NAME COL_VALUE : Z) :
  (exists menu,
     config_header_menu headerNames COL_NODE_NAME COL_VALUE = Return menu)
  <-> index_in_range headerNames COL_NODE_NAME
      /\ index_in_range headerNames COL_VALUE.
Proof.
  rewrite !list_getitem_in_range. unfold config_header_menu. cbv zeta. split.
  - intros [menu Hmenu].
    destruct (list_getitem headerNames COL_NODE_NAME) as [n|e];
      [|discriminate].
    destruct (list_getitem headerNames COL_VALUE) as [v|e];
      [eauto|discriminate].
  - intros [[n Hn] [v Hv]]. rewrite Hn, Hv.
    cbn [mbind Outcome_bind mret Outcome_ret]. eauto.
Qed.

(** X12. The repository view's header menu cannot be built without headers
    (the lookup of the first header raises); with headers, every header name
    has an entry and is enabled, but for the name of the first column,
    which cannot be unchecked. *)
Theorem repo_header_menu_first (headerNames : list string) :
  match headerNames with
  | [] =>
      repo_header_menu headerNames
      = Raise (LookupError "list index out of range")
  | first :: _ =>
      exists enabled,
        repo_header_menu headerNames = Return enabled
        /\ forall name,
             enabled !! name
             = if bool_decide (name ∈ headerNames)
               then Some (negb (bool_decide (name = first)))
               else None
  end.
Proof.
  destruct headerNames as [|first rest]; [reflexivity|].
  eexists. split; [reflexivity|].
  intros name. cbv zeta.
  rewrite lookup_insert, dict_of_names_lookup.
  destruct (decide (first = name)) as [<-|Hne].
  - rewrite !bool_decide_eq_true_2; [reflexivity|reflexivity|left].
  - rewrite (bool_decide_eq_false_2 (name = first)) by congruence.
    reflexivity.
Qed.

(** The headers of a configuration tree: name, value and two more. *)
Lemma config_header_menu_flags_witness :
  exists checked enabled,
    config_header_menu ["name"; "value"; "type"; "path"]%string 0 1
    = Return (checked, enabled)
    /\ enabled !! "type"%string = Some true
    /\ checked !! "type"%string = Some false
    /\ enabled !! "value"%string = Some false
    /\ checked !! "value"%string = Some true.
Proof.
  destruct (config_header_menu_flags ["name"; "value"; "type"; "path"]%string
              0 1 "name" "value" eq_refl eq_refl)
    as (checked & enabled & Hrun & Hflags).
  exists checked, enabled. split; [exact Hrun|].
  destruct (Hflags "type"%string) as [He1 Hc1].
  destruct (Hflags "value"%string) as [He2 Hc2].
  rewrite Hc1, Hc2, He1, He2. repeat split.
Defined.

End HeaderMenuProperties.

(** * Further properties of [libargos/widgets/repotreeview.py] *)

Section RepoFurther.
Import Qt RepoTreeView RepoFiles.

Ltac world_simpl :=
  cbn [rootItem openResources nextOid currentIndex selection expandedItems
       calls record with_tree with_openResources with_nextOid with_selection
       with_currentIndex with_expandedItems fst snd].

Ltac world_simpl_in H :=
  cbn [rootItem openResources nextOid currentIndex selection expandedItems
       calls record with_tree with_openResources with_nextOid with_selection
       with_currentIndex with_expandedItems fst snd] in H.

Lemma setExpandedState_expandedItems (index : QModelIndex) (b : bool)
    (w : World) :
  expandedItems (setExpandedState index b w)
  = match isValid index, getAt (itemPath index) (rootItem w) with
    | true, Some t =>
        if b then {[oid t]} ∪ expandedItems w else expandedItems w ∖ {[oid t]}
    | _, _ => expandedItems w
    end.
Proof.
  unfold setExpandedState.
  destruct (isValid index); [|reflexivity].
  destruct (getAt _ _); reflexivity.
Qed.

Lemma with_children_same (t : RepoTreeItem) :
  with_children t (childItems t) = t.
Proof. destruct t. reflexivity. Qed.

Lemma delete_last {A} (l : list A) (x : A) :
  delete (length l) (l ++ [x]) = l.
Proof. induction l as [|a l IH]; [reflexivity|]. cbn. f_equal. exact IH. Qed.

(** Appending an item to the top-level items. *)
Lemma model_insertItem_append (item : RepoTreeItem) (w : World) :
  model_insertItem item None InvalidIndex w
  = (Return (ModelIndex [] (length (childItems (rootItem w))) 0),
     with_tree
       (with_children (rootItem w)
          (childItems (rootItem w)
           ++ [with_parent item (Some (oid (rootItem w)))]))
       (openResources w)
       (record (ModelInsertItem (oid item) None InvalidIndex) w)).
Proof.
  unfold model_insertItem. world_simpl.
  cbn [itemPath getAt updateAt default childIndex].
  unfold insertChild. rewrite decide_True by reflexivity.
  rewrite take_ge, drop_ge by reflexivity. reflexivity.
Qed.

Lemma loadFile_run (detect : string -> RtiClass) (fileName : string)
    (expand : bool) (rtiClass : option RtiClass) (w : World) :
  let cls := match rtiClass with
             | None => detect fileName
             | Some cls => cls
             end in
  let n := length (childItems (rootItem w)) in
  loadFile detect fileName expand rtiClass w
  = (Return (ModelIndex [] n 0),
     setExpandedState (ModelIndex [] n 0) expand
       (record (ViewSetExpanded (ModelIndex [] n 0) expand)
          (with_tree
             (with_children (rootItem w)
                (childItems (rootItem w)
                 ++ [mkRti (nextOid w) cls fileName
                       (Some (oid (rootItem w))) []]))
             (openResources w)
             (record (ModelInsertItem (nextOid w) None InvalidIndex)
                (with_nextOid (S (nextOid w))
                   (record (RtiCreateFromFileName cls fileName) w)))))).
Proof.
  cbv zeta. unfold loadFile.
  rewrite (bind_Return _ _ _ _ _ (createFromFileName_run _ _ w)).
  rewrite loadRepoTreeItem_run. cbn [parentItem].
  rewrite (bind_Return _ _ _ _ _ (model_insertItem_append _ _)).
  reflexivity.
Qed.

Lemma lookup_last {A} (l : list A) (x : A) :
  (l ++ [x]) !! length l = Some x.
Proof. rewrite lookup_app_r, Nat.sub_diag by reflexivity. reflexivity. Qed.

(** X13. [loadFile] makes an item of the given class, or of the class
    detected from the file name when none is given, and appends it to the
    top-level items: it returns the index of the new last row, the items
    that were there keep their rows, no resource is opened, the selection
    is not touched, and the new item is shown expanded exactly when
    [expand] is set. *)
Theorem loadFile_appends (detect : string -> RtiClass) (fileName : string)
    (expand : bool) (rtiClass : option RtiClass) (w : World) :
  let cls := match rtiClass with
             | None => detect fileName
             | Some cls => cls
             end in
  let n := length (childItems (rootItem w)) in
  let item := mkRti (nextOid w) cls fileName (Some (oid (rootItem w))) [] in
  exists w',
    loadFile detect fileName expand rtiClass w = (Return (ModelIndex [] n 0), w')
    /\ rootItem w'
       = with_children (rootItem w) (childItems (rootItem w) ++ [item])
    /\ (forall k, (k < n)%nat ->
          childItems (rootItem w') !! k = childItems (rootItem w) !! k)
    /\ getAt (itemPath (ModelIndex [] n 0)) (rootItem w') = Some item
    /\ openResources w' = openResources w
    /\ currentIndex w' = currentIndex w
    /\ selection w' = selection w
    /\ expandedItems w'
       = if expand then {[nextOid w]} ∪ expandedItems w
         else expandedItems w ∖ {[nextOid w]}.
Proof.
  cbv zeta. eexists. split; [apply loadFile_run|].
  match goal with
  | |- context [setExpandedState ?i ?b ?w0] =>
      destruct (setExpandedState_fields i b w0)
        as (Hroot & Hres & _ & Hcur & Hsel & _);
      rewrite Hroot, Hres, Hcur, Hsel;
      erewrite (setExpandedState_there i b w0) by
        (first [reflexivity
               | world_simpl; cbn [itemPath rev app getAt childItems
                                     with_children];
                 rewrite lookup_last; reflexivity])
  end.
  world_simpl. cbn [itemPath rev app getAt childItems with_children].
  rewrite lookup_last. repeat split.
  intros k Hk. apply lookup_app_l. exact Hk.
Qed.

(** [removeCurrentFile] with the current index below the top-level node at
    row [k]. *)
Lemma removeCurrentFile_at (w : World) (k : nat) (top : RepoTreeItem) :
  childItems (rootItem w) !! k = Some top ->
  head (itemPath (currentIndex w)) = Some k ->
  removeCurrentFile w
  = (Return tt,
     with_tree
       (with_children (rootItem w) (delete k (childItems (rootItem w))))
       (release (subtreeOids top) (openResources w))
       (record (ModelDeleteItemByIndex (ModelIndex [] k 0))
          (record (LoggerDebug "removeCurrentFile") w))).
Proof.
  intros Htop Hcur. unfold removeCurrentFile.
  rewrite (bind_Return _ _ _ _ _ (eq_refl : logger_debug _ _ = (Return tt, _))).
  rewrite (bind_Return _ _ _ _ _ (_getCurrentIndex_run _)).
  world_simpl.
  destruct (currentIndex w) as [|anc r c]; [discriminate|].
  unfold model_findTopLevelItemIndex, mbind, Prog_bind.
  cbn [column0 findTopLevelItemIndex].
  rewrite (topLevelFrom_head anc r k Hcur).
  unfold model_deleteItemByIndex. cbn. rewrite Htop. reflexivity.
Qed.

(** X14. Loading a file, making it the current item and removing the
    current file gives back the tree as it was; the resource of the item
    that came and went is not open. *)
Theorem loadFile_then_removeCurrentFile (detect : string -> RtiClass)
    (fileName : string) (expand : bool) (rtiClass : option RtiClass)
    (w : World) :
  exists w',
    (index ← loadFile detect fileName expand rtiClass;
     setCurrentIndex index;;
     removeCurrentFile) w
    = (Return tt, w')
    /\ rootItem w' = rootItem w
    /\ openResources w' = release [nextOid w] (openResources w)
    /\ nextOid w ∉ openResources w'.
Proof.
  pose proof (loadFile_run detect fileName expand rtiClass w) as Hload.
  cbv zeta in Hload.
  set (n := length (childItems (rootItem w))) in *.
  match type of Hload with
  | _ = (_, setExpandedState ?i ?b ?w0) =>
      destruct (setExpandedState_fields i b w0)
        as (Hroot & Hres & _ & _ & _ & _);
      set (w1 := setExpandedState i b w0) in *
  end.
  world_simpl_in Hroot. world_simpl_in Hres.
  set (w2 := with_selection (ModelIndex [] n 0) (rowOf (ModelIndex [] n 0))
               (record (SelectionSetCurrentIndex (ModelIndex [] n 0)
                          (Z.lor ClearAndSelect Rows)) w1)).
  assert (Htop : childItems (rootItem w2) !! n
                 = Some (mkRti (nextOid w)
                           match rtiClass with
                           | Some cls => cls
                           | None => detect fileName
                           end fileName (Some (oid (rootItem w))) [])).
  { unfold w2. world_simpl. rewrite Hroot.
    cbn [childItems with_children]. apply lookup_last. }
  pose proof (removeCurrentFile_at w2 n _ Htop eq_refl) as Hremove.
  eexists. split.
  - rewrite (bind_Return _ _ _ _ _ Hload).
    rewrite (bind_Return _ _ _ _ _ (setCurrentIndex_run _ w1)).
    exact Hremove.
  - unfold w2. world_simpl. rewrite Hroot, Hres.
    cbn [childItems with_children subtreeOids flat_map].
    unfold n. rewrite delete_last, with_children_with_children.
    rewrite with_children_same.
    split; [reflexivity|]. split; [reflexivity|].
    apply not_elem_of_release. left.
Qed.

(** X15. Closing the current item a second time changes nothing but the
    log: the tree, the open resources and the expanded items are the same
    as after the first close. *)
Theorem closeCurrentItem_twice (w : World) (item : RepoTreeItem) :
  getAt (itemPath (currentIndex w)) (rootItem w) = Some item ->
  exists w1 w2,
    closeCurrentItem w = (Return tt, w1)
    /\ closeCurrentItem w1 = (Return tt, w2)
    /\ rootItem w2 = rootItem w1
    /\ openResources w2 = openResources w1
    /\ expandedItems w2 = expandedItems w1.
Proof.
  intros H.
  pose proof (closeCurrentItem_run w item H) as H1.
  match type of H1 with
  | _ = (_, setExpandedState ?i ?b ?w0) =>
      pose proof (setExpandedState_fields i b w0) as F1;
      set (w1 := setExpandedState i b w0) in *
  end.
  destruct F1 as (Hroot1 & Hres1 & _ & Hcur1 & _ & _).
  world_simpl_in Hroot1. world_simpl_in Hres1. world_simpl_in Hcur1.
  assert (Hget1 : getAt (itemPath (currentIndex w1)) (rootItem w1)
                  = Some (with_children item []))
    by (rewrite Hcur1, Hroot1; eapply getAt_putAt, H).
  pose proof (closeCurrentItem_run w1 _ Hget1) as H2.
  match type of H2 with
  | _ = (_, setExpandedState ?i ?b ?w0) =>
      pose proof (setExpandedState_fields i b w0) as F2;
      set (w2 := setExpandedState i b w0) in *
  end.
  destruct F2 as (Hroot2 & Hres2 & _ & _ & _ & _).
  world_simpl_in Hroot2. world_simpl_in Hres2.
  exists w1, w2. split; [exact H1|]. split; [exact H2|].
  split; [|split].
  - rewrite Hroot2, Hcur1, Hroot1.
    rewrite (putAt_putAt _ _ _ _ _ H). reflexivity.
  - rewrite Hres2, Hres1.
    cbn [descendantOids childItems with_children flat_map oid].
    unfold release. apply set_eq. intros o.
    rewrite !elem_of_difference, !elem_of_list_to_set.
    cbn. rewrite !elem_of_nil. tauto.
  - unfold w2. rewrite setExpandedState_expandedItems. world_simpl.
    rewrite Hcur1, Hroot1, itemPath_column0.
    rewrite (putAt_putAt _ _ _ _ _ H), (getAt_putAt _ _ _ _ H).
    cbn [oid with_children].
    destruct (isValid (column0 (currentIndex w))) eqn:Hv; [|reflexivity].
    unfold w1. rewrite setExpandedState_expandedItems. world_simpl.
    rewrite Hv, itemPath_column0, (getAt_putAt _ _ _ _ H).
    cbn [oid with_children].
    apply set_eq. intros o. rewrite !elem_of_difference. tauto.
Qed.

(** Closing the file [a.nc] twice. *)
Lemma closeCurrentItem_twice_witness :
  rootItem
    (snd (closeCurrentItem
            (snd (closeCurrentItem
                    (with_currentIndex (ModelIndex [] 0 1) example_world)))))
  = rootItem
      (snd (closeCurrentItem
              (with_currentIndex (ModelIndex [] 0 1) example_world))).
Proof.
  destruct (closeCurrentItem_twice
              (with_currentIndex (ModelIndex [] 0 1) example_world)
              example_file eq_refl)
    as (w1 & w2 & H1 & H2 & Hroot & _).
  rewrite H1. cbn [snd]. rewrite H2. exact Hroot.
Defined.

End RepoFurther.
